(** * URL shortener: base-62 encoder, SQLite-backed repository, HTTP handlers

    A shallow embedding of [app.py].  Python integers are [Z], a Python
    [str] is the [string] of its UTF-8 bytes (see [Py.has_surrogate] for
    the strings UTF-8 cannot encode), exceptions are values of [exn]
    carried by [result], and the SQLite database file is an explicit
    [Store] threaded through the repository operations. *)

From Stdlib Require Import ZArith List String Ascii Bool Lia.
From Equations Require Import Equations.
Import ListNotations.

Local Open Scope string_scope.
Local Open Scope list_scope.
Local Open Scope Z_scope.

(** ** Exceptions and results *)

(** The exceptions the program can meet.  [Unfinished] is not a Python
    exception: it marks a loop that is still running when its iteration
    budget is spent (see [encode_base62]). *)
Inductive exn : Type :=
| ValueError (msg : string)
| IndexError (msg : string)
| RuntimeError (msg : string)
| AttributeError (msg : string)
| IntegrityError (msg : string)
| OperationalError (msg : string)
| UnicodeEncodeError (msg : string)
| OverflowError (msg : string)
| DataError (msg : string)
| Unfinished.

Inductive result (A : Type) : Type :=
| Ok (a : A)
| Raise (e : exn).

Arguments Ok {A} a.
Arguments Raise {A} e.

(** ** Python primitives used by the encoder *)

Module Py.

(** [len(s)] *)
Definition len (s : string) : Z := Z.of_nat (String.length s).

(** [divmod(a, b)]: floor division, the remainder has the sign of [b];
    this is what [Z.div] and [Z.modulo] compute. *)
Definition divmod (a b : Z) : Z * Z := (a / b, a mod b).

(** [s[i]]: a one-character string; a negative index counts from the
    end; out of range raises [IndexError]. *)
Definition getitem (s : string) (i : Z) : result string :=
  let j := if i <? 0 then i + len s else i in
  if j <? 0 then Raise (IndexError "string index out of range")
  else match String.get (Z.to_nat j) s with
       | Some c => Ok (String c EmptyString)
       | None => Raise (IndexError "string index out of range")
       end.

(** [reversed(l)] consumed at once. *)
Definition reversed {A : Type} (l : list A) : list A := rev l.

(** [sep.join(l)] *)
Definition join (sep : string) (l : list string) : string :=
  String.concat sep l.

(** A [str] is kept as the bytes of its UTF-8 encoding.  A lone surrogate
    (U+D800 to U+DFFF), which a [str] can hold and UTF-8 cannot encode, is
    kept as the bytes of its generalised encoding: the byte ED followed by
    a byte A0 to BF and one more byte. *)
Definition surrogate_start (a b : ascii) : bool :=
  Ascii.eqb a "237"
  && (160 <=? nat_of_ascii b)%nat && (nat_of_ascii b <=? 191)%nat.

Fixpoint has_surrogate (s : string) : bool :=
  match s with
  | EmptyString => false
  | String a rest =>
      match rest with
      | String b _ => surrogate_start a b
      | EmptyString => false
      end
      || has_surrogate rest
  end.

(** [s.encode("utf-8")] *)
Definition encode_utf8 (s : string) : result string :=
  if has_surrogate s
  then Raise (UnicodeEncodeError "'utf-8' codec can't encode character: surrogates not allowed")
  else Ok s.

(** [s] holds a carriage return or a line feed. *)
Fixpoint has_newline (s : string) : bool :=
  match s with
  | EmptyString => false
  | String c rest => Ascii.eqb c "010" || Ascii.eqb c "013" || has_newline rest
  end.

End Py.

(** ** The encoder *)

Definition BASE62_ALPHABET : string :=
  "0123456789abcdefghijklmnopqrstuvwxyzABCDEFGHIJKLMNOPQRSTUVWXYZ".

(** The [while number:] loop of [encode_base62].  Each unit of [fuel]
    pays for one evaluation of the loop test; [None] means the loop is
    still running when the fuel is spent. *)
Fixpoint encode_loop (fuel : nat) (number base : Z) (encoded : list string)
  : option (result (list string)) :=
  match fuel with
  | O => None
  | S fuel' =>
      if number =? 0 then Some (Ok encoded)
      else
        let '(number', rem) := Py.divmod number base in
        match Py.getitem BASE62_ALPHABET rem with
        | Ok c => encode_loop fuel' number' base (encoded ++ [c])
        | Raise e => Some (Raise e)
        end
  end.

(** [encode_base62] with an explicit iteration budget. *)
Definition encode_base62_fuel (fuel : nat) (number : Z) : option (result string) :=
  if number <=? 0 then Some (Raise (ValueError "number must be positive"))
  else
    let base := Py.len BASE62_ALPHABET in
    match encode_loop fuel number base [] with
    | None => None
    | Some (Raise e) => Some (Raise e)
    | Some (Ok encoded) => Some (Ok (Py.join "" (Py.reversed encoded)))
    end.

(** An iteration budget that is enough for [number]: the quotient loses at
    least one binary digit per division by 62. *)
Definition loop_budget (number : Z) : nat := S (S (Z.to_nat (Z.log2 number))).

(** [encode_base62(number)].  The budget never runs out
    ([encode_base62_fuel_enough] below), so [Unfinished] is never returned. *)
Definition encode_base62 (number : Z) : result string :=
  match encode_base62_fuel (loop_budget number) number with
  | Some r => r
  | None => Raise Unfinished
  end.

(** ** The encoder as the specification words it *)

(** Repeated division by 62, collecting the remainder of each step, until
    the quotient reaches zero: the digits of [n], least significant first. *)
Equations? spec_digits (n : Z) : list Z by wf (Z.to_nat n) lt :=
  spec_digits n with Z_lt_dec 0 (n / 62) => {
    | left _ => n mod 62 :: spec_digits (n / 62)
    | right _ => [n mod 62] }.
Proof.
  assert (0 < n) by (destruct (Z_lt_dec 0 n); [assumption | ];
                     assert (n / 62 <= 0) by (apply Z.div_le_upper_bound; lia); lia).
  assert (n / 62 < n) by (apply Z.div_lt; lia).
  lia.
Qed.

(** The character of a digit in the alphabet ordered [0-9, a-z, A-Z]. *)
Definition spec_symbol (d : Z) : string :=
  match String.get (Z.to_nat d) BASE62_ALPHABET with
  | Some c => String c EmptyString
  | None => EmptyString
  end.

(** The collected characters, reversed: most significant digit first. *)
Definition spec_encode (n : Z) : string :=
  String.concat "" (rev (map spec_symbol (spec_digits n))).

(** The value of an alphabet character as a base-62 digit. *)
Fixpoint symbol_index (c : ascii) (alphabet : string) (i : Z) : option Z :=
  match alphabet with
  | EmptyString => None
  | String a rest => if Ascii.eqb a c then Some i else symbol_index c rest (i + 1)
  end.

(** Positional value of a string read most significant digit first
    (an independent base-62 decoder). *)
Fixpoint base62_decode_from (acc : Z) (s : string) : option Z :=
  match s with
  | EmptyString => Some acc
  | String c rest =>
      match symbol_index c BASE62_ALPHABET 0 with
      | Some d => base62_decode_from (acc * 62 + d) rest
      | None => None
      end
  end.

Definition base62_decode (s : string) : option Z := base62_decode_from 0 s.

(** Every character of [s] belongs to the alphabet. *)
Fixpoint in_alphabet (s : string) : bool :=
  match s with
  | EmptyString => true
  | String c rest =>
      match symbol_index c BASE62_ALPHABET 0 with
      | Some _ => in_alphabet rest
      | None => false
      end
  end.

(** ** SQLite, as far as the repository uses it *)

Module Sqlite.

(** A row of the table [urls]. *)
Record Row : Type := mkRow {
  id : Z;
  original_url : string;
  code : string
}.

(** The database file: the rows of [urls] in insertion order, and the
    entry of [urls] in [sqlite_sequence], which AUTOINCREMENT keeps at
    the largest rowid ever assigned (0 before the first insert). *)
Record Store : Type := mkStore {
  urls : list Row;
  sqlite_sequence : Z
}.

(** The file right after [CREATE TABLE IF NOT EXISTS urls (...)] ran on
    a new database. *)
Definition empty : Store := {| urls := []; sqlite_sequence := 0 |}.

(** The largest rowid SQLite can assign. *)
Definition MAX_ROWID : Z := 9223372036854775807.

(** A connection: the file as every other connection reads it, and the
    working copy of the transaction this connection has open, if any. *)
Record Connection : Type := mkConnection {
  disk : Store;
  txn : option Store
}.

Definition connect (db : Store) : Connection := {| disk := db; txn := None |}.

(** What this connection itself reads. *)
Definition view (c : Connection) : Store :=
  match txn c with
  | Some working => working
  | None => disk c
  end.

(** The three statements of the program, with their bound parameters. *)
Inductive Statement : Type :=
| InsertUrl (original_url code : string)
    (* INSERT INTO urls (original_url, code) VALUES (?, ?) *)
| UpdateCode (code : string) (id : Z)
    (* UPDATE urls SET code = ? WHERE id = ? *)
| SelectByCode (code : string).
    (* SELECT id, original_url, code FROM urls WHERE code = ? *)

Record Cursor : Type := mkCursor {
  lastrowid : option Z;
  pending_rows : list Row
}.

(** [cursor.fetchone()] *)
Definition fetchone (cursor : Cursor) : option Row := hd_error (pending_rows cursor).

Fixpoint max_rowid (rows : list Row) : option Z :=
  match rows with
  | [] => None
  | r :: rest =>
      match max_rowid rest with
      | None => Some (id r)
      | Some m => Some (Z.max (id r) m)
      end
  end.

(** The rowid an AUTOINCREMENT table gives its next row: one more than
    the largest rowid in the table (1 for an empty table), and more than
    the largest rowid ever assigned; no rowid is left once the largest
    possible one has been used. *)
Definition new_rowid (db : Store) : result Z :=
  let candidate :=
    match max_rowid (urls db) with
    | None => Some 1
    | Some m => if m =? MAX_ROWID then None else Some (m + 1)
    end in
  match candidate with
  | None => Raise (OperationalError "database or disk is full")
  | Some v =>
      if sqlite_sequence db =? MAX_ROWID
      then Raise (OperationalError "database or disk is full")
      else Ok (Z.max v (sqlite_sequence db + 1))
  end.

Definition has_code (c : string) (r : Row) : bool := String.eqb (code r) c.
Definition has_id (i : Z) (r : Row) : bool := id r =? i.

Definition set_code (c : string) (r : Row) : Row :=
  {| id := id r; original_url := original_url r; code := c |}.

(** One statement run against the working copy.  A failing statement
    leaves the working copy as it was. *)
Definition run (stmt : Statement) (db : Store) : result (Cursor * Store) :=
  match stmt with
  | InsertUrl u c =>
      match new_rowid db with
      | Raise e => Raise e
      | Ok i =>
          if existsb (has_code c) (urls db)
          then Raise (IntegrityError "UNIQUE constraint failed: urls.code")
          else Ok ({| lastrowid := Some i; pending_rows := [] |},
                   {| urls := urls db ++ [mkRow i u c]; sqlite_sequence := i |})
      end
  | UpdateCode c i =>
      if existsb (has_id i) (urls db)
         && existsb (fun r => negb (has_id i r) && has_code c r) (urls db)
      then Raise (IntegrityError "UNIQUE constraint failed: urls.code")
      else Ok ({| lastrowid := None; pending_rows := [] |},
               {| urls := map (fun r => if has_id i r then set_code c r else r) (urls db);
                  sqlite_sequence := sqlite_sequence db |})
  | SelectByCode c =>
      Ok ({| lastrowid := None; pending_rows := filter (has_code c) (urls db) |}, db)
  end.

(** The longest text the C interface takes, and the longest SQLite
    stores. *)
Definition INT_MAX : Z := 2147483647.
Definition SQLITE_MAX_LENGTH : Z := 1000000000.

(** Binding a [str] to a parameter: the module encodes it as UTF-8, which
    fails on a lone surrogate, and hands the bytes to SQLite, which
    refuses a text that is too long. *)
Definition bind_text (s : string) : result unit :=
  match Py.encode_utf8 s with
  | Raise e => Raise e
  | Ok bytes =>
      if INT_MAX <? Py.len bytes
      then Raise (OverflowError "string longer than INT_MAX bytes")
      else if SQLITE_MAX_LENGTH <? Py.len bytes
      then Raise (DataError "string or blob too big")
      else Ok tt
  end.

(** The parameters of a statement are bound in order before it runs; a
    rowid is a 64-bit integer and always binds. *)
Definition bind_parameters (stmt : Statement) : result unit :=
  match stmt with
  | InsertUrl u c =>
      match bind_text u with
      | Raise e => Raise e
      | Ok _ => bind_text c
      end
  | UpdateCode c _ => bind_text c
  | SelectByCode c => bind_text c
  end.

Definition writes (stmt : Statement) : bool :=
  match stmt with
  | SelectByCode _ => false
  | _ => true
  end.

(** [connection.execute(sql, parameters)].  The module opens a
    transaction before the first INSERT or UPDATE of a connection, then
    binds the parameters, then runs the statement; until [commit] the
    changes stay in the working copy. *)
Definition execute (stmt : Statement) (c : Connection) : result Cursor * Connection :=
  let c1 := if writes stmt
            then {| disk := disk c; txn := Some (view c) |}
            else c in
  match bind_parameters stmt with
  | Raise e => (Raise e, c1)
  | Ok _ =>
      match run stmt (view c1) with
      | Raise e => (Raise e, c1)
      | Ok (cursor, db') =>
          (Ok cursor,
           if writes stmt then {| disk := disk c1; txn := Some db' |} else c1)
      end
  end.

Definition commit (c : Connection) : Connection := {| disk := view c; txn := None |}.
Definition rollback (c : Connection) : Connection := {| disk := disk c; txn := None |}.

End Sqlite.

Import Sqlite.

(** ** Code that runs on an open connection *)

(** What a piece of code run on a connection leaves behind: its value or
    exception, the connection, and [visible], the file contents the other
    connections could read right after each statement it executed. *)
Record Outcome (A : Type) : Type := mkOutcome {
  value : result A;
  conn : Connection;
  visible : list Store
}.

Arguments mkOutcome {A} value conn visible.
Arguments value {A} o.
Arguments conn {A} o.
Arguments visible {A} o.

Definition Tx (A : Type) : Type := Connection -> Outcome A.

Definition ret {A : Type} (a : A) : Tx A :=
  fun c => mkOutcome (Ok a) c [].

Definition raise {A : Type} (e : exn) : Tx A :=
  fun c => mkOutcome (Raise e) c [].

Definition bind {A B : Type} (m : Tx A) (k : A -> Tx B) : Tx B :=
  fun c =>
    let o := m c in
    match value o with
    | Raise e => mkOutcome (Raise e) (conn o) (visible o)
    | Ok a =>
        let o' := k a (conn o) in
        mkOutcome (value o') (conn o') (visible o ++ visible o')
    end.

Notation "x <- m ;; k" := (bind m (fun x => k))
  (at level 61, m at next level, right associativity).

(** A call that does not touch the connection. *)
Definition call {A : Type} (r : result A) : Tx A :=
  fun c => mkOutcome r c [].

Definition execute (stmt : Statement) : Tx Cursor :=
  fun c =>
    let '(r, c') := Sqlite.execute stmt c in
    mkOutcome r c' [disk c'].

(** What a repository method leaves behind: its value or exception, the
    database file after it, and the file contents other connections could
    read while it ran. *)
Record Call (A : Type) : Type := mkCall {
  returned : result A;
  after : Store;
  observed : list Store
}.

Arguments mkCall {A} returned after observed.
Arguments returned {A} c.
Arguments after {A} c.
Arguments observed {A} c.

(** [with self._get_connection() as connection: body]: a new connection
    on the database file; the connection commits when the body ends
    normally and rolls back when it raises. *)
Definition with_connection {A : Type} (db : Store) (body : Tx A) : Call A :=
  let o := body (connect db) in
  let c := match value o with
           | Ok _ => commit (conn o)
           | Raise _ => rollback (conn o)
           end in
  mkCall (value o) (disk c) (visible o ++ [disk c]).

(** ** The repository *)

(** The dataclass [ShortURL]. *)
Module ShortURL.

Record t : Type := mk {
  id : Z;
  original_url : string;
  code : string
}.

End ShortURL.

Module URLRepository.

Definition create (original_url : string) (db : Store) : Call ShortURL.t :=
  let w := with_connection db (
    cursor <- execute (InsertUrl original_url "") ;;
    match lastrowid cursor with
    | None => raise (RuntimeError "Failed to generate URL id")
    | Some url_id =>
        code <- call (encode_base62 url_id) ;;
        _ <- execute (UpdateCode code url_id) ;;
        ret (url_id, code)
    end) in
  match returned w with
  | Raise e => mkCall (Raise e) (after w) (observed w)
  | Ok (url_id, code) =>
      mkCall (Ok {| ShortURL.id := url_id;
                    ShortURL.original_url := original_url;
                    ShortURL.code := code |})
             (after w) (observed w)
  end.

Definition fetch_by_code (code : string) (db : Store) : Call (option ShortURL.t) :=
  let w := with_connection db (
    cursor <- execute (SelectByCode code) ;;
    ret (fetchone cursor)) in
  match returned w with
  | Raise e => mkCall (Raise e) (after w) (observed w)
  | Ok None => mkCall (Ok None) (after w) (observed w)
  | Ok (Some row) =>
      mkCall (Ok (Some {| ShortURL.id := id row;
                          ShortURL.original_url := original_url row;
                          ShortURL.code := Sqlite.code row |}))
             (after w) (observed w)
  end.

End URLRepository.

(** ** The HTTP handlers *)

Module App.

#[local] Set Warnings "-register-all".

(** A value decoded from JSON, as the Python object it becomes; [JNull]
    is [None].  Of a float the handlers only look at whether it is
    zero. *)
Inductive json : Type :=
| JNull
| JBool (b : bool)
| JInt (z : Z)
| JFloat (nonzero : bool)
| JStr (s : string)
| JList (items : list json)
| JDict (items : list (string * json)).

(** The body of a request as [request.get_json] meets it. *)
Inductive Body : Type :=
| NoBody
| NotJson (raw : string)
| JsonBody (document : json).

(** [request.get_json(silent=True)]: the decoded document, [None] when
    there is none or it does not parse. *)
Definition get_json_silent (body : Body) : json :=
  match body with
  | NoBody => JNull
  | NotJson _ => JNull
  | JsonBody document => document
  end.

(** Python truth value. *)
Definition truthy (v : json) : bool :=
  match v with
  | JNull => false
  | JBool b => b
  | JInt z => negb (z =? 0)
  | JFloat nonzero => nonzero
  | JStr s => negb (String.eqb s "")
  | JList items => match items with [] => false | _ => true end
  | JDict items => match items with [] => false | _ => true end
  end.

(** [a or b] *)
Definition or_else (a b : json) : json := if truthy a then a else b.

(** A dict decoded from JSON keeps, of a repeated key, the last value. *)
Definition dict_get (key : string) (items : list (string * json)) : json :=
  match find (fun kv => String.eqb (fst kv) key) (rev items) with
  | Some kv => snd kv
  | None => JNull
  end.

(** [payload.get(key)]: only a dict has the method. *)
Definition get (payload : json) (key : string) : result json :=
  match payload with
  | JDict items => Ok (dict_get key items)
  | _ => Raise (AttributeError "object has no attribute 'get'")
  end.

(** [isinstance(v, str)] *)
Definition is_str (v : json) : option string :=
  match v with
  | JStr s => Some s
  | _ => None
  end.

Record AppConfig : Type := mkAppConfig {
  base_url : string;
  database_url : string
}.

(** What a view function hands back to Flask. *)
Inductive Response : Type :=
| Json (status : Z) (payload : json)
| Redirect (status : Z) (location : string).

(** [flask.redirect(location, code)]: the Location header refuses a value
    with a carriage return or a line feed. *)
Definition redirect (location : string) (code : Z) : result Response :=
  if Py.has_newline location
  then Raise (ValueError "Header values must not contain newline characters.")
  else Ok (Redirect code location).

Definition health : Response :=
  Json 200 (JDict [("status", JStr "ok")]).

(** The view; an exception that leaves it becomes Flask's 500 answer. *)
Definition shorten (config : AppConfig) (body : Body) (db : Store) : Call Response :=
  let payload := or_else (get_json_silent body) (JDict []) in
  match get payload "url" with
  | Raise e => mkCall (Raise e) db []
  | Ok original_url =>
      match (if truthy original_url then is_str original_url else None) with
      | None => mkCall (Ok (Json 400 (JDict [("error", JStr "url is required")]))) db []
      | Some original_url =>
          let created := URLRepository.create original_url db in
          match returned created with
          | Raise e => mkCall (Raise e) (after created) (observed created)
          | Ok short_url =>
              mkCall
                (Ok (Json 201 (JDict
                   [("code", JStr (ShortURL.code short_url));
                    ("short_url",
                     JStr (base_url config ++ "/" ++ ShortURL.code short_url)%string);
                    ("url", JStr (ShortURL.original_url short_url))])))
                (after created) (observed created)
          end
      end
  end.

Definition redirect_to_url (code : string) (db : Store) : Call Response :=
  let fetched := URLRepository.fetch_by_code code db in
  match returned fetched with
  | Raise e => mkCall (Raise e) (after fetched) (observed fetched)
  | Ok None =>
      mkCall (Ok (Json 404 (JDict [("error", JStr "not found")])))
             (after fetched) (observed fetched)
  | Ok (Some short_url) =>
      mkCall (redirect (ShortURL.original_url short_url) 302)
             (after fetched) (observed fetched)
  end.

End App.

(** ** Stores the program produces *)

(** The rows are what [create] leaves: each row carries a positive rowid
    and the code of that rowid, no rowid occurs twice (PRIMARY KEY), none
    is above [sqlite_sequence]. *)
Definition issued (r : Row) : Prop :=
  1 <= id r /\ encode_base62 (id r) = Ok (code r).

Record store_inv (db : Store) : Prop := mkStoreInv {
  inv_issued : Forall issued (urls db);
  inv_primary_key : NoDup (map id (urls db));
  inv_sequence : Forall (fun r => id r <= sqlite_sequence db) (urls db);
  inv_sequence_nonneg : 0 <= sqlite_sequence db
}.

(** The stores reached from a new database by calls of [create]. *)
Inductive reachable : Store -> Prop :=
| reachable_empty : reachable Sqlite.empty
| reachable_create : forall db original_url,
    reachable db -> reachable (after (URLRepository.create original_url db)).

(** The schema's UNIQUE constraint on [code]. *)
Definition codes_unique (db : Store) : Prop :=
  forall r1 r2, In r1 (urls db) -> In r2 (urls db) -> code r1 = code r2 -> r1 = r2.

(** ** Auxiliary definitions *)

(** The alphabet, checked symbol by symbol: the character at position [d]
    is found again at position [d]. *)
Definition symbol_ok (d : Z) : bool :=
  match String.get (Z.to_nat d) BASE62_ALPHABET with
  | Some c =>
      match symbol_index c BASE62_ALPHABET 0 with
      | Some d' => d' =? d
      | None => false
      end
  | None => false
  end.

(** A base-62 digit. *)
Definition digit (d : Z) : Prop := 0 <= d < 62.

(** Value of a list of digits, least significant first. *)
Definition positional (digits : list Z) : Z :=
  fold_right (fun d acc => d + 62 * acc) 0 digits.

(** Value of a list of digits, most significant first, by Horner's rule. *)
Definition horner (acc : Z) (digits : list Z) : Z :=
  fold_left (fun a d => a * 62 + d) digits acc.

(** The store after the INSERT of [create], and after its UPDATE. *)
Definition inserted (original_url : string) (i : Z) (db : Store) : Store :=
  {| urls := urls db ++ [mkRow i original_url ""]; sqlite_sequence := i |}.

Definition recoded (c : string) (i : Z) (db : Store) : Store :=
  {| urls := map (fun r => if has_id i r then set_code c r else r) (urls db);
     sqlite_sequence := sqlite_sequence db |}.

Definition clashes (c : string) (i : Z) (db : Store) : bool :=
  existsb (has_id i) (urls db)
  && existsb (fun r => negb (has_id i r) && has_code c r) (urls db).

(** [create] without the monad: every path of the method, with the file
    contents other connections could read along the way. *)
Definition create_paths (original_url : string) (db : Store) : Call ShortURL.t :=
  match bind_text original_url with
  | Raise e => mkCall (Raise e) db [db; db]
  | Ok _ =>
  match new_rowid db with
  | Raise e => mkCall (Raise e) db [db; db]
  | Ok i =>
      if existsb (has_code "") (urls db)
      then mkCall (Raise (IntegrityError "UNIQUE constraint failed: urls.code")) db [db; db]
      else
        match encode_base62 i with
        | Raise e => mkCall (Raise e) db [db; db]
        | Ok c =>
            match bind_text c with
            | Raise e => mkCall (Raise e) db [db; db; db]
            | Ok _ =>
            if clashes c i (inserted original_url i db)
            then mkCall (Raise (IntegrityError "UNIQUE constraint failed: urls.code"))
                        db [db; db; db]
            else mkCall (Ok (ShortURL.mk i original_url c))
                        (recoded c i (inserted original_url i db))
                        [db; db; recoded c i (inserted original_url i db)]
            end
        end
  end
  end.


(** The record [fetch_by_code] builds from a row. *)
Definition short_of_row (r : Row) : ShortURL.t :=
  ShortURL.mk (id r) (original_url r) (code r).

(** The store once [create] has committed the row of rowid [i]. *)
Definition stored (original_url : string) (i : Z) (c : string) (db : Store) : Store :=
  {| urls := urls db ++ [mkRow i original_url c]; sqlite_sequence := i |}.

(** ** Configuration and start-up *)

Module Env.

(** [os.environ]: a variable is set to a string, or not set. *)
Definition t : Type := string -> option string.

(** [os.getenv(key, default)] *)
Definition getenv (env : t) (key default : string) : string :=
  match env key with
  | Some v => v
  | None => default
  end.

End Env.

(** [c in chars] *)
Fixpoint char_in (c : ascii) (chars : string) : bool :=
  match chars with
  | EmptyString => false
  | String a rest => Ascii.eqb a c || char_in c rest
  end.

(** [s.rstrip(chars)]: [s] without its trailing characters that belong to
    [chars]. *)
Fixpoint rstrip (s chars : string) : string :=
  match s with
  | EmptyString => EmptyString
  | String c rest =>
      match rstrip rest chars with
      | EmptyString => if char_in c chars then EmptyString else String c EmptyString
      | kept => String c kept
      end
  end.

Module AppConfig.

Definition from_env (env : Env.t) : App.AppConfig :=
  let base_url := Env.getenv env "BASE_URL" "http://localhost:5000" in
  let database_url := Env.getenv env "DATABASE_URL" "urls.db" in
  {| App.base_url := rstrip base_url "/"; App.database_url := database_url |}.

End AppConfig.

(** A string of [k] slashes. *)
Fixpoint slashes (k : nat) : string :=
  match k with
  | O => EmptyString
  | S k' => String "/" (slashes k')
  end.

(** The rowids 1, 2, ..., n in order. *)
Definition first_rowids (n : nat) : list Z := map Z.of_nat (seq 1 n).

(** * Verification *)

(** ** The alphabet *)

Lemma all_symbols_ok : forallb symbol_ok (map Z.of_nat (seq 0 62)) = true.
Proof. vm_compute. reflexivity. Qed.

Lemma digit_in_range (d : Z) :
  0 <= d < 62 -> In d (map Z.of_nat (seq 0 62)).
Proof.
  intros Hd. apply in_map_iff. exists (Z.to_nat d). split.
  - lia.
  - apply in_seq. lia.
Qed.

(** A digit below 62 has a character, and the character gives the digit
    back. *)
Lemma symbol_of_digit (d : Z) :
  0 <= d < 62 ->
  exists c, String.get (Z.to_nat d) BASE62_ALPHABET = Some c
            /\ symbol_index c BASE62_ALPHABET 0 = Some d.
Proof.
  intros Hd.
  pose proof (proj1 (forallb_forall _ _) all_symbols_ok d (digit_in_range d Hd)) as Hok.
  unfold symbol_ok in Hok.
  destruct (String.get (Z.to_nat d) BASE62_ALPHABET) as [c|]; [|discriminate].
  exists c. split; [reflexivity|].
  destruct (symbol_index c BASE62_ALPHABET 0) as [d'|]; [|discriminate].
  apply Z.eqb_eq in Hok. congruence.
Qed.

Lemma spec_symbol_char (d : Z) :
  0 <= d < 62 ->
  exists c, spec_symbol d = String c EmptyString
            /\ symbol_index c BASE62_ALPHABET 0 = Some d.
Proof.
  intros Hd. destruct (symbol_of_digit d Hd) as (c & Hget & Hidx).
  exists c. unfold spec_symbol. rewrite Hget. auto.
Qed.

Lemma getitem_alphabet (d : Z) :
  0 <= d < 62 -> Py.getitem BASE62_ALPHABET d = Ok (spec_symbol d).
Proof.
  intros Hd. destruct (symbol_of_digit d Hd) as (c & Hget & _).
  unfold Py.getitem, spec_symbol.
  destruct (d <? 0) eqn:Hneg; [apply Z.ltb_lt in Hneg; lia|].
  rewrite Hneg, Hget. reflexivity.
Qed.

Lemma len_alphabet : Py.len BASE62_ALPHABET = 62.
Proof. reflexivity. Qed.

(** ** The digits of the specification *)

Lemma spec_digits_step (n : Z) :
  spec_digits n =
  if 0 <? n / 62 then n mod 62 :: spec_digits (n / 62) else [n mod 62].
Proof.
  rewrite spec_digits_equation_1. simpl.
  destruct (Z_lt_dec 0 (n / 62)) as [Hlt|Hge]; simpl.
  - apply Z.ltb_lt in Hlt. rewrite Hlt. reflexivity.
  - apply Z.ltb_nlt in Hge. rewrite Hge. reflexivity.
Qed.

Lemma spec_digits_quotient (n : Z) :
  0 < n / 62 -> 0 <= n / 62 < n.
Proof.
  intros Hq.
  assert (0 < n).
  { destruct (Z_lt_dec 0 n) as [|Hn]; [assumption|].
    assert (n / 62 <= 0) by (apply Z.div_le_upper_bound; lia). lia. }
  split; [lia|]. apply Z.div_lt; lia.
Qed.

Lemma small_quotient (n : Z) :
  0 <= n -> ~ 0 < n / 62 -> n / 62 = 0 /\ n mod 62 = n.
Proof.
  intros Hn Hq.
  assert (0 <= n / 62) by (apply Z.div_pos; lia).
  assert (Hz : n / 62 = 0) by lia.
  split; [assumption|].
  pose proof (Z.div_mod n 62 ltac:(lia)) as Hdm. rewrite Hz in Hdm. lia.
Qed.

(** Induction that follows the recursion of [spec_digits]. *)
Lemma spec_digits_ind (P : Z -> Prop) :
  (forall n, 0 <= n -> ~ 0 < n / 62 -> P n) ->
  (forall n, 0 < n / 62 -> P (n / 62) -> P n) ->
  forall n, 0 <= n -> P n.
Proof.
  intros Hbase Hstep n Hn.
  induction n as [n IH] using (well_founded_induction (Z.lt_wf 0)).
  destruct (Z_lt_dec 0 (n / 62)) as [Hq|Hq].
  - apply Hstep; [assumption|]. apply IH.
    + pose proof (spec_digits_quotient n Hq). lia.
    + lia.
  - apply Hbase; assumption.
Qed.

Lemma spec_digits_are_digits (n : Z) : Forall digit (spec_digits n).
Proof.
  assert (Hmod : forall m, digit (m mod 62)) by (intros m; apply Z.mod_pos_bound; lia).
  destruct (Z_le_gt_dec 0 n) as [Hn|Hn].
  - revert n Hn. apply (spec_digits_ind (fun n => Forall digit (spec_digits n))).
    + intros n _ Hq. rewrite spec_digits_step.
      apply Z.ltb_nlt in Hq. rewrite Hq. constructor; [apply Hmod | constructor].
    + intros n Hq IH. rewrite spec_digits_step.
      apply Z.ltb_lt in Hq. rewrite Hq. constructor; [apply Hmod | exact IH].
  - rewrite spec_digits_step.
    assert (Hq : n / 62 < 0) by (apply Z.div_lt_upper_bound; lia).
    apply Z.lt_asymm, Z.ltb_nlt in Hq.
    rewrite Hq. constructor; [apply Hmod | constructor].
Qed.

Lemma positional_cons (d : Z) (digits : list Z) :
  positional (d :: digits) = d + 62 * positional digits.
Proof. reflexivity. Qed.

Lemma positional_spec_digits (n : Z) : 0 <= n -> positional (spec_digits n) = n.
Proof.
  revert n. apply (spec_digits_ind (fun n => positional (spec_digits n) = n)).
  - intros n Hn Hq. rewrite spec_digits_step.
    destruct (small_quotient n Hn Hq) as [_ Hmod].
    apply Z.ltb_nlt in Hq. rewrite Hq, positional_cons.
    change (positional []) with 0. lia.
  - intros n Hq IH. rewrite spec_digits_step.
    apply Z.ltb_lt in Hq. rewrite Hq, positional_cons, IH.
    pose proof (Z.div_mod n 62 ltac:(lia)). lia.
Qed.

Lemma spec_digits_nonempty (n : Z) : spec_digits n <> [].
Proof.
  rewrite spec_digits_step. destruct (0 <? n / 62); discriminate.
Qed.

(** The most significant digit of a positive number is not zero. *)
Lemma spec_digits_leading (n : Z) : 1 <= n -> last (spec_digits n) 0 <> 0.
Proof.
  intros Hn. assert (H0 : 0 <= n) by lia. revert n H0 Hn.
  apply (spec_digits_ind (fun n => 1 <= n -> last (spec_digits n) 0 <> 0)).
  - intros n Hn Hq Hpos. rewrite spec_digits_step.
    destruct (small_quotient n Hn Hq) as [_ Hmod].
    apply Z.ltb_nlt in Hq. rewrite Hq. simpl. lia.
  - intros n Hq IH _. rewrite spec_digits_step.
    pose proof Hq as Hq'. apply Z.ltb_lt in Hq'. rewrite Hq'.
    pose proof (spec_digits_nonempty (n / 62)) as Hne.
    destruct (spec_digits (n / 62)) as [|d ds] eqn:Hds; [congruence|].
    change (last (n mod 62 :: d :: ds) 0) with (last (d :: ds) 0).
    apply IH. lia.
Qed.

(** ** The loop of the encoder *)

Lemma encode_loop_step (fuel : nat) (number base : Z) (encoded : list string) :
  encode_loop (S fuel) number base encoded =
  if number =? 0 then Some (Ok encoded)
  else match Py.getitem BASE62_ALPHABET (number mod base) with
       | Ok c => encode_loop fuel (number / base) base (encoded ++ [c])
       | Raise e => Some (Raise e)
       end.
Proof. reflexivity. Qed.

(** The quotient of a positive number is smaller and not negative: the
    variant of the loop. *)
Lemma quotient_decreases (number : Z) :
  0 < number -> 0 <= number / 62 < number.
Proof.
  intros Hn. split.
  - apply Z.div_pos; lia.
  - apply Z.div_lt; lia.
Qed.

(** With [S fuel] tests paid for, the loop finishes on every positive
    number below [2 ^ fuel], and has appended the characters of its digits,
    least significant first. *)
Lemma encode_loop_digits (fuel : nat) :
  forall number encoded,
    0 < number < 2 ^ Z.of_nat fuel ->
    encode_loop (S fuel) number 62 encoded =
    Some (Ok (encoded ++ map spec_symbol (spec_digits number))).
Proof.
  induction fuel as [|fuel IH]; intros number encoded [Hpos Hlt].
  - change (2 ^ Z.of_nat 0) with 1 in Hlt. lia.
  - rewrite encode_loop_step.
    destruct (number =? 0) eqn:Hz; [apply Z.eqb_eq in Hz; lia|].
    rewrite getitem_alphabet by (apply Z.mod_pos_bound; lia).
    rewrite (spec_digits_step number).
    destruct (quotient_decreases number Hpos) as [Hq0 Hqn].
    destruct (0 <? number / 62) eqn:Hq.
    + apply Z.ltb_lt in Hq. rewrite IH.
      * rewrite <- app_assoc. reflexivity.
      * split; [assumption|].
        apply Z.div_lt_upper_bound; [lia|].
        rewrite Nat2Z.inj_succ, Z.pow_succ_r in Hlt by lia. lia.
    + apply Z.ltb_nlt in Hq.
      replace (number / 62) with 0 by lia.
      rewrite encode_loop_step. reflexivity.
Qed.

(** More fuel does not change a result. *)
Lemma encode_loop_more_fuel (fuel : nat) :
  forall number base encoded r,
    encode_loop fuel number base encoded = Some r ->
    forall fuel', (fuel <= fuel')%nat ->
    encode_loop fuel' number base encoded = Some r.
Proof.
  induction fuel as [|fuel IH]; intros number base encoded r Hrun fuel' Hle.
  - discriminate.
  - destruct fuel' as [|fuel']; [lia|].
    rewrite encode_loop_step in *.
    destruct (number =? 0); [assumption|].
    destruct (Py.getitem BASE62_ALPHABET (number mod base)); [|assumption].
    apply IH with (fuel' := fuel') in Hrun; [assumption | lia].
Qed.

Lemma loop_budget_bound (number : Z) :
  0 < number -> number < 2 ^ Z.of_nat (S (Z.to_nat (Z.log2 number))).
Proof.
  intros Hpos.
  pose proof (Z.log2_spec number Hpos) as [_ Hup].
  pose proof (Z.log2_nonneg number).
  rewrite Nat2Z.inj_succ, Z2Nat.id by assumption. exact Hup.
Qed.

Lemma spec_encode_join (n : Z) :
  Py.join "" (Py.reversed ([] ++ map spec_symbol (spec_digits n))) = spec_encode n.
Proof. reflexivity. Qed.

(** Enough fuel: from [loop_budget number] on, the run returns, and
    returns what the specification's wording gives. *)
Lemma encode_base62_fuel_enough (number : Z) (fuel : nat) :
  1 <= number -> (loop_budget number <= fuel)%nat ->
  encode_base62_fuel fuel number = Some (Ok (spec_encode number)).
Proof.
  intros Hpos Hfuel. unfold encode_base62_fuel.
  destruct (number <=? 0) eqn:Hle; [apply Z.leb_le in Hle; lia|].
  rewrite len_alphabet.
  rewrite (encode_loop_more_fuel (loop_budget number) number 62 []
             (Ok ([] ++ map spec_symbol (spec_digits number)))).
  - rewrite spec_encode_join. reflexivity.
  - apply encode_loop_digits. split; [lia|]. apply loop_budget_bound. lia.
  - assumption.
Qed.

Lemma encode_base62_spec (number : Z) :
  1 <= number -> encode_base62 number = Ok (spec_encode number).
Proof.
  intros Hpos. unfold encode_base62.
  rewrite encode_base62_fuel_enough by (assumption || apply Nat.le_refl).
  reflexivity.
Qed.

Lemma encode_base62_nonpositive (number : Z) :
  number <= 0 -> encode_base62 number = Raise (ValueError "number must be positive").
Proof.
  intros Hle. unfold encode_base62, encode_base62_fuel.
  apply Z.leb_le in Hle. rewrite Hle. reflexivity.
Qed.

(** [encode_base62] returns exactly on the positive numbers. *)
Lemma encode_base62_ok_positive (number : Z) (s : string) :
  encode_base62 number = Ok s -> 1 <= number /\ s = spec_encode number.
Proof.
  intros Henc. destruct (Z_le_gt_dec number 0) as [Hle|Hgt].
  - rewrite encode_base62_nonpositive in Henc by assumption. discriminate.
  - rewrite encode_base62_spec in Henc by lia. split; [lia | congruence].
Qed.

(** ** Reading the code back *)

Lemma concat_symbol (c : ascii) (rest : list string) :
  String.concat "" (String c EmptyString :: rest) = String c (String.concat "" rest).
Proof. destruct rest; reflexivity. Qed.

Lemma decode_symbols (digits : list Z) :
  Forall digit digits ->
  forall acc,
    base62_decode_from acc (String.concat "" (map spec_symbol digits))
    = Some (horner acc digits).
Proof.
  induction 1 as [|d digits Hd _ IH]; intros acc.
  - reflexivity.
  - destruct (spec_symbol_char d Hd) as (c & Hsym & Hidx).
    change (map spec_symbol (d :: digits))
      with (spec_symbol d :: map spec_symbol digits).
    rewrite Hsym, concat_symbol.
    change (base62_decode_from acc (String c (String.concat "" (map spec_symbol digits))))
      with (match symbol_index c BASE62_ALPHABET 0 with
            | Some d' => base62_decode_from (acc * 62 + d')
                           (String.concat "" (map spec_symbol digits))
            | None => None
            end).
    rewrite Hidx, IH. reflexivity.
Qed.

Lemma in_alphabet_symbols (digits : list Z) :
  Forall digit digits ->
  in_alphabet (String.concat "" (map spec_symbol digits)) = true.
Proof.
  induction 1 as [|d digits Hd _ IH].
  - reflexivity.
  - destruct (spec_symbol_char d Hd) as (c & Hsym & Hidx).
    change (map spec_symbol (d :: digits))
      with (spec_symbol d :: map spec_symbol digits).
    rewrite Hsym, concat_symbol.
    change (in_alphabet (String c (String.concat "" (map spec_symbol digits))))
      with (match symbol_index c BASE62_ALPHABET 0 with
            | Some _ => in_alphabet (String.concat "" (map spec_symbol digits))
            | None => false
            end).
    rewrite Hidx. exact IH.
Qed.

Lemma horner_rev (digits : list Z) :
  horner 0 (rev digits) = positional digits.
Proof.
  induction digits as [|d digits IH].
  - reflexivity.
  - rewrite positional_cons, <- IH. unfold horner.
    change (rev (d :: digits)) with (rev digits ++ [d]).
    rewrite fold_left_app. cbn [fold_left]. lia.
Qed.

Lemma spec_encode_symbols (n : Z) :
  spec_encode n = String.concat "" (map spec_symbol (rev (spec_digits n))).
Proof. unfold spec_encode. rewrite map_rev. reflexivity. Qed.

(** The decoder inverts the encoder of the specification. *)
Lemma base62_decode_spec_encode (n : Z) :
  0 <= n -> base62_decode (spec_encode n) = Some n.
Proof.
  intros Hn. unfold base62_decode. rewrite spec_encode_symbols, decode_symbols.
  - rewrite horner_rev, positional_spec_digits by assumption. reflexivity.
  - apply Forall_rev, spec_digits_are_digits.
Qed.

Lemma in_alphabet_spec_encode (n : Z) : in_alphabet (spec_encode n) = true.
Proof.
  rewrite spec_encode_symbols. apply in_alphabet_symbols.
  apply Forall_rev, spec_digits_are_digits.
Qed.

Lemma rev_last_first (digits : list Z) :
  digits <> [] -> rev digits = last digits 0 :: rev (removelast digits).
Proof.
  intros Hne. rewrite (app_removelast_last 0 Hne) at 1.
  rewrite rev_app_distr. reflexivity.
Qed.

Lemma last_is_digit (digits : list Z) :
  digits <> [] -> Forall digit digits -> digit (last digits 0).
Proof.
  intros Hne Hall. rewrite (app_removelast_last 0 Hne) in Hall.
  apply Forall_app in Hall. destruct Hall as [_ Hlast].
  inversion Hlast; assumption.
Qed.

(** The code starts with the character of the most significant digit. *)
Lemma spec_encode_head (n : Z) :
  exists c rest,
    spec_encode n = String c rest
    /\ symbol_index c BASE62_ALPHABET 0 = Some (last (spec_digits n) 0).
Proof.
  pose proof (spec_digits_nonempty n) as Hne.
  pose proof (last_is_digit _ Hne (spec_digits_are_digits n)) as Hd.
  destruct (spec_symbol_char _ Hd) as (c & Hsym & Hidx).
  exists c. eexists. split; [|exact Hidx].
  rewrite spec_encode_symbols, (rev_last_first _ Hne).
  change (map spec_symbol (last (spec_digits n) 0 :: rev (removelast (spec_digits n))))
    with (spec_symbol (last (spec_digits n) 0)
          :: map spec_symbol (rev (removelast (spec_digits n)))).
  rewrite Hsym, concat_symbol. reflexivity.
Qed.

Lemma spec_encode_no_leading_zero (n : Z) :
  1 <= n ->
  exists c rest, spec_encode n = String c rest /\ c <> "0"%char.
Proof.
  intros Hn. destruct (spec_encode_head n) as (c & rest & Heq & Hidx).
  exists c, rest. split; [assumption|].
  intros ->.
  assert (Hzero : symbol_index "0"%char BASE62_ALPHABET 0 = Some 0) by reflexivity.
  pose proof (spec_digits_leading n Hn). congruence.
Qed.

Lemma spec_encode_injective (m n : Z) :
  0 <= m -> 0 <= n -> spec_encode m = spec_encode n -> m = n.
Proof.
  intros Hm Hn Heq.
  pose proof (base62_decode_spec_encode m Hm) as Dm.
  pose proof (base62_decode_spec_encode n Hn) as Dn.
  rewrite Heq in Dm. congruence.
Qed.

(** Without the guard the loop would not end on a negative number: floor
    division keeps [-1] at [-1]. *)
Lemma encode_loop_stuck_below_zero (fuel : nat) :
  forall encoded, encode_loop fuel (-1) 62 encoded = None.
Proof.
  induction fuel as [|fuel IH]; intros encoded.
  - reflexivity.
  - rewrite encode_loop_step.
    change (-1 =? 0) with false. change (-1 mod 62) with 61. change (-1 / 62) with (-1).
    rewrite getitem_alphabet by lia. apply IH.
Qed.

(** ** The encoder: claims *)

(** C1: for every integer n >= 1, [encode_base62 n] is the standard
    positional base-62 representation of n over the alphabet 0-9, a-z, A-Z:
    it is what repeated division by 62 gives when the character of each
    remainder is collected until the quotient is zero and the characters are
    reversed ([spec_encode]); its digits are below 62 and have positional
    value n, an independent decoder reads n back, and the first character
    is not the zero digit (no padding). *)
Theorem encode_base62_positional (n : Z) :
  1 <= n ->
  encode_base62 n = Ok (spec_encode n)
  /\ Forall digit (spec_digits n)
  /\ positional (spec_digits n) = n
  /\ base62_decode (spec_encode n) = Some n
  /\ exists c rest, spec_encode n = String c rest /\ c <> "0"%char.
Proof.
  intros Hn. split; [|split; [|split; [|split]]].
  - apply encode_base62_spec. assumption.
  - apply spec_digits_are_digits.
  - apply positional_spec_digits. lia.
  - apply base62_decode_spec_encode. lia.
  - apply spec_encode_no_leading_zero. assumption.
Qed.

Lemma encode_base62_positional_witness :
  encode_base62 1000000000 = Ok (spec_encode 1000000000)
  /\ Forall digit (spec_digits 1000000000)
  /\ positional (spec_digits 1000000000) = 1000000000
  /\ base62_decode (spec_encode 1000000000) = Some 1000000000
  /\ exists c rest, spec_encode 1000000000 = String c rest /\ c <> "0"%char.
Proof. apply (encode_base62_positional 1000000000). lia. Defined.

(** C6: for every integer n >= 1, [encode_base62 n] is a non-empty string
    whose characters all belong to the 62-symbol alphabet, and
    [encode_base62] is injective on the positive integers. *)
Theorem encode_base62_nonempty_alphabet_injective (n : Z) :
  1 <= n ->
  exists s,
    encode_base62 n = Ok s
    /\ s <> ""
    /\ in_alphabet s = true
    /\ forall m, 1 <= m -> m <> n -> encode_base62 m <> encode_base62 n.
Proof.
  intros Hn. exists (spec_encode n). split; [|split; [|split]].
  - apply encode_base62_spec. assumption.
  - destruct (spec_encode_head n) as (c & rest & Heq & _). rewrite Heq. discriminate.
  - apply in_alphabet_spec_encode.
  - intros m Hm Hneq Heq.
    rewrite !encode_base62_spec in Heq by assumption.
    apply Hneq, spec_encode_injective; [lia | lia | congruence].
Qed.

Lemma encode_base62_nonempty_alphabet_injective_witness :
  exists s,
    encode_base62 3843 = Ok s
    /\ s <> ""
    /\ in_alphabet s = true
    /\ forall m, 1 <= m -> m <> 3843 -> encode_base62 m <> encode_base62 3843.
Proof. apply (encode_base62_nonempty_alphabet_injective 3843). lia. Defined.

(** C7: for every integer n <= 0, zero and the negative numbers alike,
    [encode_base62 n] raises ValueError and gives no string, whatever the
    iteration budget; it never returns normally there. *)
Theorem encode_base62_rejects_nonpositive (n : Z) :
  n <= 0 ->
  encode_base62 n = Raise (ValueError "number must be positive")
  /\ (forall fuel,
        encode_base62_fuel fuel n = Some (Raise (ValueError "number must be positive")))
  /\ forall s, encode_base62 n <> Ok s.
Proof.
  intros Hn. split; [|split].
  - apply encode_base62_nonpositive. assumption.
  - intros fuel. unfold encode_base62_fuel.
    apply Z.leb_le in Hn. rewrite Hn. reflexivity.
  - intros s. rewrite encode_base62_nonpositive by assumption. discriminate.
Qed.

Lemma encode_base62_rejects_nonpositive_witness :
  encode_base62 (-5) = Raise (ValueError "number must be positive")
  /\ (forall fuel,
        encode_base62_fuel fuel (-5) = Some (Raise (ValueError "number must be positive")))
  /\ forall s, encode_base62 (-5) <> Ok s.
Proof. apply (encode_base62_rejects_nonpositive (-5)). lia. Defined.

(** C10: [encode_base62] terminates on every positive integer: in the loop
    the quotient of a positive number by the base is not negative and
    strictly smaller, and after finitely many iterations (at most
    [loop_budget n] loop tests) the loop has ended and the function has
    returned a string; more iterations allowed never change that. *)
Theorem encode_base62_terminates (n : Z) :
  1 <= n ->
  (forall number, 0 < number ->
     0 <= fst (Py.divmod number (Py.len BASE62_ALPHABET)) < number)
  /\ exists s,
       (forall fuel, (loop_budget n <= fuel)%nat ->
          encode_base62_fuel fuel n = Some (Ok s))
       /\ encode_base62 n = Ok s.
Proof.
  intros Hn. split.
  - intros number Hpos. rewrite len_alphabet. apply quotient_decreases. assumption.
  - exists (spec_encode n). split.
    + intros fuel Hfuel. apply encode_base62_fuel_enough; assumption.
    + apply encode_base62_spec. assumption.
Qed.

Lemma encode_base62_terminates_witness :
  (forall number, 0 < number ->
     0 <= fst (Py.divmod number (Py.len BASE62_ALPHABET)) < number)
  /\ exists s,
       (forall fuel, (loop_budget 62 <= fuel)%nat ->
          encode_base62_fuel fuel 62 = Some (Ok s))
       /\ encode_base62 62 = Ok s.
Proof. apply (encode_base62_terminates 62). lia. Defined.
Example encode_base62_1 : encode_base62 1 = Ok "1".
Proof. reflexivity. Qed.
Example encode_base62_61 : encode_base62 61 = Ok "Z".
Proof. reflexivity. Qed.
Example encode_base62_62 : encode_base62 62 = Ok "10".
Proof. reflexivity. Qed.
Example encode_base62_3843 : encode_base62 3843 = Ok "ZZ".
Proof. reflexivity. Qed.
Example encode_base62_1e9 : encode_base62 1000000000 = Ok "15FTGg".
Proof. reflexivity. Qed.
Example spec_encode_1e9 : spec_encode 1000000000 = "15FTGg".
Proof. reflexivity. Qed.
Example base62_decode_1e9 : base62_decode "15FTGg" = Some 1000000000.
Proof. reflexivity. Qed.

(** ** The length of a code *)

Lemma concat_cons (x : string) (rest : list string) :
  String.concat "" (x :: rest) = (x ++ String.concat "" rest)%string.
Proof.
  destruct rest as [|y rest]; [|reflexivity].
  cbn [String.concat]. induction x as [|c x IH]; [reflexivity|].
  cbn [append]. rewrite <- IH. reflexivity.
Qed.

Lemma append_assoc (a b c : string) :
  ((a ++ b) ++ c)%string = (a ++ (b ++ c))%string.
Proof.
  induction a as [|ch a IH]; [reflexivity|]. cbn [append]. rewrite IH. reflexivity.
Qed.

Lemma append_empty_r (a : string) : (a ++ "")%string = a.
Proof.
  induction a as [|ch a IH]; [reflexivity|]. cbn [append]. rewrite IH. reflexivity.
Qed.

Lemma concat_app (l1 l2 : list string) :
  String.concat "" (l1 ++ l2)
  = (String.concat "" l1 ++ String.concat "" l2)%string.
Proof.
  induction l1 as [|x l1 IH]; [reflexivity|].
  change ((x :: l1) ++ l2) with (x :: (l1 ++ l2)).
  rewrite !concat_cons, IH, append_assoc. reflexivity.
Qed.

Lemma length_append (a b : string) :
  String.length (a ++ b) = (String.length a + String.length b)%nat.
Proof.
  induction a as [|ch a IH]; [reflexivity|]. cbn [append String.length].
  rewrite IH. reflexivity.
Qed.

Lemma length_symbols (digits : list Z) :
  Forall digit digits ->
  String.length (String.concat "" (map spec_symbol digits)) = List.length digits.
Proof.
  induction 1 as [|d digits Hd _ IH]; [reflexivity|].
  destruct (spec_symbol_char d Hd) as (c & Hsym & _).
  change (map spec_symbol (d :: digits))
    with (spec_symbol d :: map spec_symbol digits).
  rewrite Hsym, concat_symbol. cbn [String.length List.length]. rewrite IH. reflexivity.
Qed.

Lemma length_spec_encode (n : Z) :
  String.length (spec_encode n) = List.length (spec_digits n).
Proof.
  rewrite spec_encode_symbols, length_symbols, length_rev; [reflexivity|].
  apply Forall_rev, spec_digits_are_digits.
Qed.

Lemma spec_digits_count (n : Z) :
  1 <= n ->
  62 ^ (Z.of_nat (List.length (spec_digits n)) - 1) <= n
  < 62 ^ Z.of_nat (List.length (spec_digits n)).
Proof.
  intros Hn. assert (H0 : 0 <= n) by lia. revert n H0 Hn.
  apply (spec_digits_ind
           (fun n => 1 <= n ->
                     62 ^ (Z.of_nat (List.length (spec_digits n)) - 1) <= n
                     < 62 ^ Z.of_nat (List.length (spec_digits n)))).
  - intros n Hn Hq Hpos. rewrite spec_digits_step.
    destruct (small_quotient n Hn Hq) as [_ Hmod].
    pose proof (Z.mod_pos_bound n 62 ltac:(lia)).
    apply Z.ltb_nlt in Hq. rewrite Hq. cbn [List.length].
    change (62 ^ (Z.of_nat 1 - 1)) with 1. change (62 ^ Z.of_nat 1) with 62. lia.
  - intros n Hq IH _. rewrite spec_digits_step.
    pose proof Hq as Hq'. apply Z.ltb_lt in Hq'. rewrite Hq'. cbn [List.length].
    specialize (IH ltac:(lia)).
    set (len := List.length (spec_digits (n / 62))) in *.
    assert (Hlen : (1 <= len)%nat).
    { pose proof (spec_digits_nonempty (n / 62)) as Hne. subst len.
      destruct (spec_digits (n / 62)); [congruence | cbn [List.length]; lia]. }
    rewrite Nat2Z.inj_succ.
    replace (Z.succ (Z.of_nat len) - 1) with (Z.succ (Z.of_nat len - 1)) by lia.
    rewrite !Z.pow_succ_r by lia.
    pose proof (Z.div_mod n 62 ltac:(lia)) as Hdm.
    pose proof (Z.mod_pos_bound n 62 ltac:(lia)) as Hmod.
    lia.
Qed.

Lemma spec_encode_length (n : Z) :
  1 <= n ->
  62 ^ (Py.len (spec_encode n) - 1) <= n < 62 ^ Py.len (spec_encode n).
Proof.
  intros Hn. unfold Py.len. rewrite length_spec_encode.
  apply spec_digits_count. assumption.
Qed.

(** ** The repository, statement by statement *)

Lemma bind_text_blank : bind_text "" = Ok tt.
Proof. reflexivity. Qed.

Lemma create_eq_paths (original_url : string) (db : Store) :
  URLRepository.create original_url db = create_paths original_url db.
Proof.
  unfold URLRepository.create, create_paths, with_connection, bind, execute,
    Sqlite.execute, call, ret, raise.
  cbn [writes run view connect txn disk bind_parameters].
  destruct (bind_text original_url) as [[]|e]; [|reflexivity].
  rewrite bind_text_blank.
  destruct (new_rowid db) as [i|e]; cbn -[bind_text]; [|reflexivity].
  destruct (existsb (has_code "") (urls db)); cbn -[bind_text]; [reflexivity|].
  destruct (encode_base62 i) as [c|e]; cbn -[bind_text]; [|reflexivity].
  destruct (bind_text c) as [[]|e]; cbn -[bind_text]; [|reflexivity].
  unfold clashes, recoded, inserted. cbn [urls sqlite_sequence].
  match goal with
  | |- context [if ?b then Raise _ else Ok _] => destruct b
  end; reflexivity.
Qed.

(** [fetch_by_code] without the monad. *)
Lemma fetch_eq_filter (c : string) (db : Store) :
  URLRepository.fetch_by_code c db =
  match bind_text c with
  | Raise e => mkCall (Raise e) db [db; db]
  | Ok _ =>
      mkCall (Ok (option_map short_of_row (hd_error (filter (has_code c) (urls db)))))
             db [db; db]
  end.
Proof.
  unfold URLRepository.fetch_by_code, with_connection, bind, execute,
    Sqlite.execute, ret, fetchone.
  cbn [writes run view connect txn disk bind_parameters].
  destruct (bind_text c) as [[]|e]; [|reflexivity].
  cbn. destruct (filter (has_code c) (urls db)); reflexivity.
Qed.

(** When the code binds, the lookup is a search of the table. *)
Lemma fetch_bound (c : string) (db : Store) :
  bind_text c = Ok tt ->
  URLRepository.fetch_by_code c db =
  mkCall (Ok (option_map short_of_row (hd_error (filter (has_code c) (urls db)))))
         db [db; db].
Proof. intros Hbind. rewrite fetch_eq_filter, Hbind. reflexivity. Qed.

(** *** Rowids *)

Lemma max_rowid_upper (rows : list Row) :
  forall m, max_rowid rows = Some m -> Forall (fun r => id r <= m) rows.
Proof.
  induction rows as [|r rows IH]; intros m Hmax.
  - constructor.
  - cbn [max_rowid] in Hmax. destruct (max_rowid rows) as [m'|] eqn:Hrest.
    + injection Hmax as <-. constructor; [lia|].
      eapply Forall_impl; [|apply IH; reflexivity].
      cbn. intros; lia.
    + injection Hmax as <-. destruct rows as [|r' rows].
      * constructor; [lia | constructor].
      * cbn [max_rowid] in Hrest. destruct (max_rowid rows); discriminate.
Qed.

Lemma max_rowid_below (bound : Z) (rows : list Row) :
  Forall (fun r => id r <= bound) rows ->
  forall m, max_rowid rows = Some m -> m <= bound.
Proof.
  induction 1 as [|r rows Hr _ IH]; intros m Hmax.
  - discriminate.
  - cbn [max_rowid] in Hmax. destruct (max_rowid rows) as [m'|].
    + injection Hmax as <-. specialize (IH m' eq_refl). lia.
    + injection Hmax as <-. assumption.
Qed.

(** The rowid of a new row is above every rowid of the table and above
    every rowid assigned before. *)
Lemma new_rowid_fresh (db : Store) (i : Z) :
  new_rowid db = Ok i ->
  Forall (fun r => id r < i) (urls db) /\ sqlite_sequence db < i.
Proof.
  unfold new_rowid. intros Hnew.
  destruct (max_rowid (urls db)) as [m|] eqn:Hmax.
  - destruct (m =? MAX_ROWID); [discriminate|].
    destruct (sqlite_sequence db =? MAX_ROWID); [discriminate|].
    injection Hnew as <-. split; [|lia].
    eapply Forall_impl; [|apply (max_rowid_upper _ _ Hmax)].
    cbn. intros; lia.
  - destruct (sqlite_sequence db =? MAX_ROWID); [discriminate|].
    injection Hnew as <-. split; [|lia].
    destruct (urls db) as [|r rows]; [constructor|].
    cbn [max_rowid] in Hmax. destruct (max_rowid rows); discriminate.
Qed.


(** *** The row of a new rowid *)

Lemma has_id_old (i : Z) (r : Row) : id r < i -> has_id i r = false.
Proof. intros Hlt. unfold has_id. apply Z.eqb_neq. lia. Qed.

Lemma recode_old_rows (c : string) (i : Z) (rows : list Row) :
  Forall (fun r => id r < i) rows ->
  map (fun r => if has_id i r then set_code c r else r) rows = rows.
Proof.
  induction 1 as [|r rows Hr _ IH]; [reflexivity|].
  cbn [map]. rewrite (has_id_old i r Hr), IH. reflexivity.
Qed.

Lemma recoded_inserted (original_url c : string) (i : Z) (db : Store) :
  Forall (fun r => id r < i) (urls db) ->
  recoded c i (inserted original_url i db) = stored original_url i c db.
Proof.
  intros Hold. unfold recoded, inserted, stored. cbn [urls sqlite_sequence].
  rewrite map_app, (recode_old_rows c i _ Hold). cbn [map].
  unfold has_id. cbn [id]. rewrite Z.eqb_refl. reflexivity.
Qed.

Lemma has_id_new (i : Z) (u c : string) : has_id i (mkRow i u c) = true.
Proof. unfold has_id. cbn [id]. apply Z.eqb_refl. Qed.

Lemma other_rows_with_code (c : string) (i : Z) (rows : list Row) :
  Forall (fun r => id r < i) rows ->
  existsb (fun r => negb (has_id i r) && has_code c r) rows
  = existsb (has_code c) rows.
Proof.
  induction 1 as [|r rows Hr _ IH]; [reflexivity|].
  cbn [existsb]. rewrite (has_id_old i r Hr), IH. reflexivity.
Qed.

Lemma clashes_inserted (original_url c : string) (i : Z) (db : Store) :
  Forall (fun r => id r < i) (urls db) ->
  clashes c i (inserted original_url i db) = existsb (has_code c) (urls db).
Proof.
  intros Hold. unfold clashes, inserted. cbn [urls].
  rewrite !existsb_app, (other_rows_with_code c i _ Hold).
  cbn [existsb]. rewrite has_id_new. cbn [negb andb].
  rewrite !orb_false_r, orb_true_r. reflexivity.
Qed.

(** *** What [create] does *)

(** When [create] returns: the rowid is new, the code is the code of the
    rowid and no row had it, and the store has gained exactly that row. *)
Lemma create_returns (original_url : string) (db : Store) (s : ShortURL.t) :
  returned (URLRepository.create original_url db) = Ok s ->
  exists i c,
    new_rowid db = Ok i
    /\ encode_base62 i = Ok c
    /\ s = ShortURL.mk i original_url c
    /\ existsb (has_code "") (urls db) = false
    /\ existsb (has_code c) (urls db) = false
    /\ URLRepository.create original_url db =
       mkCall (Ok s) (stored original_url i c db)
              [db; db; stored original_url i c db].
Proof.
  rewrite create_eq_paths. unfold create_paths.
  destruct (bind_text original_url) as [[]|e]; [|discriminate].
  destruct (new_rowid db) as [i|e] eqn:Hnew; [|discriminate].
  destruct (new_rowid_fresh db i Hnew) as [Hold _].
  destruct (existsb (has_code "") (urls db)) eqn:Hblank; [discriminate|].
  destruct (encode_base62 i) as [c|e] eqn:Henc; [|discriminate].
  destruct (bind_text c) as [[]|e]; [|discriminate].
  rewrite (clashes_inserted original_url c i db Hold),
          (recoded_inserted original_url c i db Hold).
  destruct (existsb (has_code c) (urls db)) eqn:Hclash; [discriminate|].
  cbn [returned]. intros Hs. injection Hs as <-.
  exists i, c. repeat split; solve [reflexivity | assumption].
Qed.


(** When [create] raises: the file is as before, at every moment. *)
Lemma create_raises (original_url : string) (db : Store) (e : exn) :
  returned (URLRepository.create original_url db) = Raise e ->
  after (URLRepository.create original_url db) = db
  /\ Forall (eq db) (observed (URLRepository.create original_url db)).
Proof.
  rewrite create_eq_paths. unfold create_paths.
  destruct (bind_text original_url) as [[]|e']; [|cbn; auto].
  destruct (new_rowid db) as [i|e']; [|cbn; auto].
  destruct (existsb (has_code "") (urls db)); [cbn; auto|].
  destruct (encode_base62 i) as [c|e']; [|cbn; auto].
  destruct (bind_text c) as [[]|e']; [|cbn; auto].
  destruct (clashes c i (inserted original_url i db)); [cbn; auto|].
  discriminate.
Qed.

(** A string over the alphabet has no surrogate, and the code of a rowid
    is short: it binds. *)
Lemma alphabet_no_surrogate (s : string) :
  in_alphabet s = true -> Py.has_surrogate s = false.
Proof.
  induction s as [|a rest IH]; [reflexivity|].
  cbn [in_alphabet Py.has_surrogate].
  destruct (symbol_index a BASE62_ALPHABET 0) as [d|] eqn:Hidx; [|discriminate].
  intros Hrest. rewrite (IH Hrest), orb_false_r.
  destruct rest as [|b rest']; [reflexivity|].
  unfold Py.surrogate_start.
  destruct (Ascii.eqb a "237") eqn:Ha; [|reflexivity].
  apply Ascii.eqb_eq in Ha. subst a. vm_compute in Hidx. discriminate.
Qed.

Lemma code_binds (n : Z) :
  1 <= n <= MAX_ROWID -> bind_text (spec_encode n) = Ok tt.
Proof.
  intros [Hpos Hmax]. unfold bind_text, Py.encode_utf8.
  rewrite (alphabet_no_surrogate _ (in_alphabet_spec_encode n)).
  pose proof (spec_encode_length n Hpos) as [Hlow _].
  assert (Hlen : Py.len (spec_encode n) <= 11).
  { destruct (Z_le_gt_dec (Py.len (spec_encode n)) 11) as [|Hgt]; [assumption|].
    exfalso.
    assert (62 ^ 11 <= 62 ^ (Py.len (spec_encode n) - 1))
      by (apply Z.pow_le_mono_r; lia).
    assert (MAX_ROWID < 62 ^ 11) by reflexivity. lia. }
  destruct (INT_MAX <? Py.len (spec_encode n)) eqn:H1;
    [apply Z.ltb_lt in H1; unfold INT_MAX in H1; lia|].
  destruct (SQLITE_MAX_LENGTH <? Py.len (spec_encode n)) eqn:H2;
    [apply Z.ltb_lt in H2; unfold SQLITE_MAX_LENGTH in H2; lia|].
  reflexivity.
Qed.


(** *** Stores the program produces *)

Lemma store_inv_empty : store_inv Sqlite.empty.
Proof.
  constructor; cbn; try constructor. lia.
Qed.

Lemma store_inv_create (original_url : string) (db : Store) :
  store_inv db -> store_inv (after (URLRepository.create original_url db)).
Proof.
  intros Hinv.
  destruct (returned (URLRepository.create original_url db)) as [s|e] eqn:Hret.
  - destruct (create_returns original_url db s Hret)
      as (i & c & Hnew & Henc & -> & _ & _ & Hcall).
    rewrite Hcall. cbn [after].
    destruct (new_rowid_fresh db i Hnew) as [Hold Hseq].
    destruct (encode_base62_ok_positive i c Henc) as [Hpos _].
    constructor; cbn [stored urls sqlite_sequence].
    + apply Forall_app. split; [apply (inv_issued db Hinv)|].
      constructor; [|constructor]. split; cbn [id code]; assumption.
    + rewrite map_app. cbn [map id].
      apply NoDup_app; [apply (inv_primary_key db Hinv) | | ].
      * constructor; [intros [] | constructor].
      * intros x Hx [<-|[]]. apply in_map_iff in Hx.
        destruct Hx as (r & Hid & Hin).
        pose proof (proj1 (Forall_forall _ _) Hold r Hin) as Hlt. cbn in Hlt. lia.
    + apply Forall_app. split.
      * eapply Forall_impl; [|exact Hold]. cbn. intros; lia.
      * constructor; [cbn [id]; lia | constructor].
    + pose proof (inv_sequence_nonneg db Hinv). lia.
  - destruct (create_raises original_url db e Hret) as [-> _]. assumption.
Qed.

Lemma reachable_store_inv (db : Store) : reachable db -> store_inv db.
Proof.
  induction 1 as [|db original_url _ IH].
  - apply store_inv_empty.
  - apply store_inv_create. assumption.
Qed.

Lemma store_inv_codes_unique (db : Store) : store_inv db -> codes_unique db.
Proof.
  intros Hinv r1 r2 Hin1 Hin2 Hcode.
  pose proof (proj1 (Forall_forall _ _) (inv_issued db Hinv) r1 Hin1) as [Hp1 He1].
  pose proof (proj1 (Forall_forall _ _) (inv_issued db Hinv) r2 Hin2) as [Hp2 He2].
  rewrite encode_base62_spec in He1, He2 by assumption.
  assert (Hid : id r1 = id r2)
    by (apply spec_encode_injective; [lia | lia | congruence]).
  pose proof (inv_primary_key db Hinv) as Hkey.
  clear - Hkey Hin1 Hin2 Hid.
  induction (urls db) as [|r rows IH]; [contradiction|].
  cbn [map] in Hkey. inversion Hkey as [|x xs Hnotin Hrest]; subst.
  destruct Hin1 as [<-|Hin1], Hin2 as [<-|Hin2].
  - reflexivity.
  - exfalso. apply Hnotin. rewrite Hid. apply in_map. assumption.
  - exfalso. apply Hnotin. rewrite <- Hid. apply in_map. assumption.
  - apply IH; assumption.
Qed.

(** *** Lookups *)




Lemma hd_filter_found {A : Type} (p : A -> bool) (l : list A) (a : A) :
  hd_error (filter p l) = Some a -> In a l /\ p a = true.
Proof.
  intros Hhd. destruct (filter p l) as [|b rest] eqn:Hf; [discriminate|].
  injection Hhd as ->. apply filter_In. rewrite Hf. left. reflexivity.
Qed.

Lemma hd_filter_exists {A : Type} (p : A -> bool) (l : list A) (a : A) :
  In a l -> p a = true -> exists b, hd_error (filter p l) = Some b.
Proof.
  intros Hin Hp. destruct (filter p l) as [|b rest] eqn:Hf.
  - assert (Hmem : In a (filter p l)) by (apply filter_In; auto).
    rewrite Hf in Hmem. contradiction.
  - exists b. reflexivity.
Qed.

(** *** The placeholder row *)

Lemma stored_blank_rows (original_url c : string) (i : Z) (db : Store) (r : Row) :
  c <> "" -> In r (urls (stored original_url i c db)) -> code r = "" ->
  In r (urls db).
Proof.
  intros Hc Hin Hblank. cbn [stored urls] in Hin. apply in_app_or in Hin.
  destruct Hin as [Hin | [<- | []]]; [assumption|].
  cbn [code] in Hblank. contradiction.
Qed.

Lemma encode_base62_not_blank (i : Z) (c : string) :
  encode_base62 i = Ok c -> c <> "".
Proof.
  intros Henc. destruct (encode_base62_ok_positive i c Henc) as [_ ->].
  destruct (spec_encode_head i) as (ch & rest & Heq & _). rewrite Heq. discriminate.
Qed.

(** Inside the transaction the connection itself does see the placeholder
    row after its INSERT, while the file does not have it. *)
Example placeholder_only_in_transaction :
  let c := snd (Sqlite.execute (InsertUrl "https://example.com" "") (connect Sqlite.empty)) in
  urls (view c) = [mkRow 1 "https://example.com" ""] /\ urls (disk c) = [].
Proof. split; reflexivity. Qed.

(** ** The repository: claims *)






(** C4: atomicity of [create].  The INSERT and the UPDATE are one unit of
    work: at every moment of the call the file other connections read is
    either the store before the call or the store after it, and it changes
    only when the call returns; (a) a lookup by code on the file, at any
    of these moments, returns only a record with exactly that code, and no
    row with an empty code is ever in the file unless it was there before
    the call; (b) when the call raises, for whatever reason, the file is
    unchanged afterwards and was unchanged at every moment. *)
Theorem create_atomic (original_url : string) (db : Store) :
  (forall seen, In seen (observed (URLRepository.create original_url db)) ->
     seen = db
     \/ (seen = after (URLRepository.create original_url db)
         /\ exists s, returned (URLRepository.create original_url db) = Ok s))
  /\ (forall s, returned (URLRepository.create original_url db) = Ok s ->
        observed (URLRepository.create original_url db)
        = [db; db; after (URLRepository.create original_url db)])
  /\ (forall seen c found,
        In seen (observed (URLRepository.create original_url db)) ->
        returned (URLRepository.fetch_by_code c seen) = Ok (Some found) ->
        ShortURL.code found = c)
  /\ (forall seen r,
        In seen (observed (URLRepository.create original_url db)) ->
        In r (urls seen) -> code r = "" -> In r (urls db))
  /\ (forall e, returned (URLRepository.create original_url db) = Raise e ->
        after (URLRepository.create original_url db) = db
        /\ forall seen, In seen (observed (URLRepository.create original_url db)) ->
                        seen = db).
Proof.
  assert (Hmoments :
    forall seen, In seen (observed (URLRepository.create original_url db)) ->
      seen = db
      \/ (seen = after (URLRepository.create original_url db)
          /\ exists s, returned (URLRepository.create original_url db) = Ok s)).
  { intros seen Hin.
    destruct (returned (URLRepository.create original_url db)) as [s|e] eqn:Hret.
    - destruct (create_returns original_url db s Hret)
        as (i & c & _ & _ & _ & _ & _ & Hcall).
      rewrite Hcall in Hin |- *. cbn [observed after] in *.
      destruct Hin as [<-|[<-|[<-|[]]]]; eauto.
    - destruct (create_raises original_url db e Hret) as [_ Hall].
      left. symmetry. exact (proj1 (Forall_forall _ _) Hall seen Hin). }
  split; [exact Hmoments|]. split; [|split; [|split]].
  - intros s Hret.
    destruct (create_returns original_url db s Hret)
      as (i & c & _ & _ & _ & _ & _ & Hcall).
    rewrite Hcall. reflexivity.
  - intros seen c found _ Hfetch. rewrite fetch_eq_filter in Hfetch.
    destruct (bind_text c) as [[]|e]; [|discriminate].
    cbn [returned] in Hfetch.
    destruct (hd_error (filter (has_code c) (urls seen))) as [r|] eqn:Hhd;
      [|discriminate].
    injection Hfetch as <-. apply hd_filter_found in Hhd.
    destruct Hhd as [_ Hcode]. apply String.eqb_eq in Hcode. exact Hcode.
  - intros seen r Hin Hrow Hblank.
    destruct (Hmoments seen Hin) as [-> | [-> [s Hret]]]; [assumption|].
    destruct (create_returns original_url db s Hret)
      as (i & c & _ & Henc & _ & _ & _ & Hcall).
    rewrite Hcall in Hrow. cbn [after] in Hrow.
    apply (stored_blank_rows original_url c i db r); try assumption.
    apply (encode_base62_not_blank i). assumption.
  - intros e Hret. destruct (create_raises original_url db e Hret) as [Hafter Hall].
    split; [assumption|].
    intros seen Hin. symmetry. exact (proj1 (Forall_forall _ _) Hall seen Hin).
Qed.

Lemma create_atomic_witness :
  let db := {| urls := [mkRow 1 "https://a.example" "2"]; sqlite_sequence := 1 |} in
  after (URLRepository.create "https://b.example" db) = db
  /\ forall seen,
       In seen (observed (URLRepository.create "https://b.example" db)) -> seen = db.
Proof.
  intros db.
  destruct (create_atomic "https://b.example" db) as (_ & _ & _ & _ & Hfail).
  apply (Hfail (IntegrityError "UNIQUE constraint failed: urls.code")).
  reflexivity.
Defined.

(** A run of [create] that fails at its UPDATE, after its INSERT went
    through: the store already holds the code of the next rowid.  The file
    is untouched. *)
Example create_rolls_back_insert :
  let db := {| urls := [mkRow 1 "https://a.example" "2"]; sqlite_sequence := 1 |} in
  URLRepository.create "https://b.example" db =
  mkCall (Raise (IntegrityError "UNIQUE constraint failed: urls.code")) db [db; db; db].
Proof. reflexivity. Qed.

(** C5: of two calls of [create] in sequence that both return, the second
    id is strictly greater than the first, so the ids differ; the second
    id is not the rowid of any row and is above every rowid assigned
    before (never reused); and the two codes differ. *)
Theorem sequential_creates (u1 u2 : string) (db : Store) (s1 s2 : ShortURL.t) :
  returned (URLRepository.create u1 db) = Ok s1 ->
  returned (URLRepository.create u2 (after (URLRepository.create u1 db))) = Ok s2 ->
  ShortURL.id s1 < ShortURL.id s2
  /\ ShortURL.id s1 <> ShortURL.id s2
  /\ ShortURL.code s1 <> ShortURL.code s2
  /\ ~ In (ShortURL.id s1) (map id (urls db))
  /\ ~ In (ShortURL.id s2) (map id (urls (after (URLRepository.create u1 db))))
  /\ sqlite_sequence db < ShortURL.id s1
  /\ sqlite_sequence (after (URLRepository.create u1 db)) < ShortURL.id s2.
Proof.
  intros Hret1 Hret2.
  destruct (create_returns u1 db s1 Hret1)
    as (i1 & c1 & Hnew1 & Henc1 & -> & _ & _ & Hcall1).
  rewrite Hcall1 in Hret2 |- *. cbn [after] in *.
  destruct (create_returns u2 _ s2 Hret2)
    as (i2 & c2 & Hnew2 & Henc2 & -> & _ & _ & _).
  destruct (new_rowid_fresh _ _ Hnew1) as [Hold1 Hseq1].
  destruct (new_rowid_fresh _ _ Hnew2) as [Hold2 Hseq2].
  cbn [stored sqlite_sequence urls] in Hseq2, Hold2.
  cbn [ShortURL.id ShortURL.code].
  assert (Hfresh : forall rows i,
            Forall (fun r => id r < i) rows -> ~ In i (map id rows)).
  { intros rows i Hall Hin. apply in_map_iff in Hin.
    destruct Hin as (r & Hid & Hin).
    pose proof (proj1 (Forall_forall _ _) Hall r Hin) as Hlt. cbn in Hlt. lia. }
  repeat split; try lia; auto.
  intros Hcodes. subst c2.
  destruct (encode_base62_ok_positive i1 c1 Henc1) as [Hp1 E1].
  destruct (encode_base62_ok_positive i2 c1 Henc2) as [Hp2 E2].
  assert (i1 = i2) by (apply spec_encode_injective; [lia | lia | congruence]).
  lia.
Qed.

Lemma sequential_creates_witness :
  1 < 2 /\ 1 <> 2 /\ "1" <> "2"
  /\ ~ In 1 (map id (urls Sqlite.empty))
  /\ ~ In 2 (map id (urls (after (URLRepository.create "https://a.example" Sqlite.empty))))
  /\ sqlite_sequence Sqlite.empty < 1
  /\ sqlite_sequence (after (URLRepository.create "https://a.example" Sqlite.empty)) < 2.
Proof.
  apply (sequential_creates "https://a.example" "https://b.example" Sqlite.empty
           (ShortURL.mk 1 "https://a.example" "1")
           (ShortURL.mk 2 "https://b.example" "2")).
  - reflexivity.
  - reflexivity.
Defined.




(** ** The handler: claims *)




(** The handler on a well-formed request, and on JSON that is not an
    object. *)
Example shorten_example :
  returned (App.shorten (App.mkAppConfig "http://localhost:5000" "urls.db")
              (App.JsonBody (App.JDict [("url", App.JStr "https://example.com")]))
              Sqlite.empty)
  = Ok (App.Json 201 (App.JDict [("code", App.JStr "1");
                                 ("short_url", App.JStr "http://localhost:5000/1");
                                 ("url", App.JStr "https://example.com")])).
Proof. reflexivity. Qed.

Example shorten_json_list :
  returned (App.shorten (App.mkAppConfig "http://localhost:5000" "urls.db")
              (App.JsonBody (App.JList [App.JInt 1])) Sqlite.empty)
  = Raise (AttributeError "object has no attribute 'get'").
Proof. reflexivity. Qed.

(** * Further properties of the program *)

(** ** The encoder: shape of the codes *)

(** X1: for every n >= 1 the code of n has exactly as many characters as n
    has base-62 digits: with L the length of [encode_base62 n],
    62^(L-1) <= n < 62^L. *)
Theorem encode_base62_length (n : Z) :
  1 <= n ->
  exists s,
    encode_base62 n = Ok s
    /\ 62 ^ (Py.len s - 1) <= n < 62 ^ Py.len s.
Proof.
  intros Hn. exists (spec_encode n). split.
  - apply encode_base62_spec. assumption.
  - apply spec_encode_length. assumption.
Qed.

Lemma encode_base62_length_witness :
  exists s,
    encode_base62 3844 = Ok s
    /\ 62 ^ (Py.len s - 1) <= 3844 < 62 ^ Py.len s.
Proof. apply (encode_base62_length 3844). lia. Defined.

(** X2: codes never get shorter as the number grows: for 1 <= m <= n the
    code of m is at most as long as the code of n. *)
Theorem encode_base62_length_monotone (m n : Z) :
  1 <= m -> m <= n ->
  exists sm sn,
    encode_base62 m = Ok sm /\ encode_base62 n = Ok sn
    /\ Py.len sm <= Py.len sn.
Proof.
  intros Hm Hmn.
  pose proof (spec_encode_length m Hm) as Hbm.
  pose proof (spec_encode_length n ltac:(lia)) as Hbn.
  exists (spec_encode m), (spec_encode n).
  split; [apply encode_base62_spec; assumption|].
  split; [apply encode_base62_spec; lia|].
  set (sm := spec_encode m) in *. set (sn := spec_encode n) in *.
  destruct (Z_le_gt_dec (Py.len sm) (Py.len sn)) as [|Hgt]; [assumption|].
  exfalso.
  assert (Hlen : 0 <= Py.len sn) by (unfold Py.len; lia).
  assert (62 ^ Py.len sn <= 62 ^ (Py.len sm - 1))
    by (apply Z.pow_le_mono_r; lia).
  lia.
Qed.

Lemma encode_base62_length_monotone_witness :
  exists sm sn,
    encode_base62 61 = Ok sm /\ encode_base62 62 = Ok sn
    /\ Py.len sm <= Py.len sn.
Proof. apply (encode_base62_length_monotone 61 62); lia. Defined.

Lemma spec_digits_push (q d : Z) :
  1 <= q -> 0 <= d < 62 -> spec_digits (62 * q + d) = d :: spec_digits q.
Proof.
  intros Hq Hd. rewrite spec_digits_step.
  assert (Hdiv : (62 * q + d) / 62 = q).
  { symmetry. apply (Z.div_unique_pos (62 * q + d) 62 q d); lia. }
  assert (Hmod : (62 * q + d) mod 62 = d).
  { symmetry. apply (Z.mod_unique_pos (62 * q + d) 62 q d); lia. }
  rewrite Hdiv, Hmod.
  destruct (0 <? q) eqn:Hpos; [reflexivity | apply Z.ltb_nlt in Hpos; lia].
Qed.

Lemma spec_encode_push (q d : Z) :
  1 <= q -> 0 <= d < 62 ->
  spec_encode (62 * q + d) = (spec_encode q ++ spec_symbol d)%string.
Proof.
  intros Hq Hd. unfold spec_encode. rewrite spec_digits_push by assumption.
  change (map spec_symbol (d :: spec_digits q))
    with (spec_symbol d :: map spec_symbol (spec_digits q)).
  change (rev (spec_symbol d :: map spec_symbol (spec_digits q)))
    with (rev (map spec_symbol (spec_digits q)) ++ [spec_symbol d]).
  rewrite concat_app. reflexivity.
Qed.

Lemma spec_encode_single (d : Z) :
  1 <= d < 62 -> spec_encode d = spec_symbol d.
Proof.
  intros Hd. unfold spec_encode. rewrite spec_digits_step.
  assert (Hdiv : d / 62 = 0) by (apply Z.div_small; lia).
  assert (Hmod : d mod 62 = d) by (apply Z.mod_small; lia).
  rewrite Hdiv, Hmod. reflexivity.
Qed.

(** X3: the code is built digit by digit: a number below 62 is encoded as
    the one character at its position in the alphabet, and the code of
    [62 * q + d], for q >= 1 and a digit d, is the code of q followed by
    the character at position d. *)
Theorem encode_base62_digit_by_digit (q d : Z) :
  1 <= q -> 0 <= d < 62 ->
  exists sq c,
    encode_base62 q = Ok sq
    /\ Py.getitem BASE62_ALPHABET d = Ok c
    /\ Py.len c = 1
    /\ encode_base62 (62 * q + d) = Ok (sq ++ c)%string
    /\ (q < 62 -> Py.getitem BASE62_ALPHABET q = Ok sq).
Proof.
  intros Hq Hd. exists (spec_encode q), (spec_symbol d).
  split; [apply encode_base62_spec; assumption|].
  split; [apply getitem_alphabet; assumption|]. split; [|split].
  - destruct (spec_symbol_char d Hd) as (c & -> & _). reflexivity.
  - rewrite encode_base62_spec by lia. rewrite spec_encode_push by assumption.
    reflexivity.
  - intros Hsmall. rewrite getitem_alphabet by lia.
    rewrite spec_encode_single by lia. reflexivity.
Qed.

Lemma encode_base62_digit_by_digit_witness :
  exists sq c,
    encode_base62 61 = Ok sq
    /\ Py.getitem BASE62_ALPHABET 10 = Ok c
    /\ Py.len c = 1
    /\ encode_base62 (62 * 61 + 10) = Ok (sq ++ c)%string
    /\ (61 < 62 -> Py.getitem BASE62_ALPHABET 61 = Ok sq).
Proof. apply (encode_base62_digit_by_digit 61 10); lia. Defined.

(** ** The encoder: every canonical string is a code *)

Lemma symbol_index_position (alphabet : string) :
  forall c i d,
    symbol_index c alphabet i = Some d ->
    i <= d < i + Z.of_nat (String.length alphabet)
    /\ String.get (Z.to_nat (d - i)) alphabet = Some c.
Proof.
  induction alphabet as [|a alphabet IH]; intros c i d Hidx.
  - discriminate.
  - cbn [symbol_index] in Hidx. cbn [String.length].
    destruct (Ascii.eqb a c) eqn:Hac.
    + injection Hidx as <-. apply Ascii.eqb_eq in Hac. subst a.
      rewrite Z.sub_diag. split; [lia | reflexivity].
    + destruct (IH c (i + 1) d Hidx) as [Hrange Hget]. split; [lia|].
      replace (Z.to_nat (d - i)) with (S (Z.to_nat (d - (i + 1)))) by lia.
      exact Hget.
Qed.

Lemma symbol_of_index (c : ascii) (d : Z) :
  symbol_index c BASE62_ALPHABET 0 = Some d ->
  0 <= d < 62 /\ spec_symbol d = String c EmptyString.
Proof.
  intros Hidx. destruct (symbol_index_position _ _ _ _ Hidx) as [Hrange Hget].
  change (Z.of_nat (String.length BASE62_ALPHABET)) with 62 in Hrange.
  rewrite Z.sub_0_r in Hget. split; [lia|].
  unfold spec_symbol. rewrite Hget. reflexivity.
Qed.

Lemma decode_continues (rest : string) :
  forall acc,
    1 <= acc -> in_alphabet rest = true ->
    exists v,
      base62_decode_from acc rest = Some v
      /\ 1 <= v
      /\ spec_encode v = (spec_encode acc ++ rest)%string.
Proof.
  induction rest as [|c rest IH]; intros acc Hacc Hin.
  - exists acc. rewrite append_empty_r. auto.
  - cbn [in_alphabet] in Hin. cbn [base62_decode_from].
    destruct (symbol_index c BASE62_ALPHABET 0) as [d|] eqn:Hidx; [|discriminate].
    destruct (symbol_of_index c d Hidx) as [Hd Hsym].
    destruct (IH (acc * 62 + d) ltac:(lia) Hin) as (v & Hdec & Hv & Henc).
    exists v. split; [assumption|]. split; [assumption|].
    rewrite Henc. replace (acc * 62 + d) with (62 * acc + d) by lia.
    rewrite spec_encode_push, Hsym, append_assoc by assumption. reflexivity.
Qed.

(** X4: every non-empty string over the alphabet that does not start with
    the zero digit is the code of exactly one positive number, the one the
    decoder reads from it: [encode_base62] maps the positive integers onto
    these strings. *)
Theorem encode_base62_onto_canonical (c : ascii) (rest : string) :
  in_alphabet (String c rest) = true ->
  c <> "0"%char ->
  exists n,
    1 <= n
    /\ base62_decode (String c rest) = Some n
    /\ encode_base62 n = Ok (String c rest)
    /\ forall m, encode_base62 m = Ok (String c rest) -> m = n.
Proof.
  intros Hin Hc. cbn [in_alphabet] in Hin. unfold base62_decode.
  cbn [base62_decode_from].
  destruct (symbol_index c BASE62_ALPHABET 0) as [d|] eqn:Hidx; [|discriminate].
  destruct (symbol_of_index c d Hidx) as [Hd Hsym].
  assert (Hd1 : 1 <= d).
  { destruct (Z.eq_dec d 0) as [->|]; [|lia]. exfalso. apply Hc.
    destruct (symbol_index_position _ _ _ _ Hidx) as [_ Hget].
    cbn in Hget. congruence. }
  destruct (decode_continues rest (0 * 62 + d) ltac:(lia) Hin)
    as (n & Hdec & Hn & Henc).
  exists n. split; [assumption|]. split; [assumption|].
  assert (Hcode : spec_encode n = String c rest).
  { rewrite Henc. change (0 * 62 + d) with d.
    rewrite spec_encode_single, Hsym by lia. reflexivity. }
  split.
  - rewrite encode_base62_spec by assumption. congruence.
  - intros m Hm. destruct (encode_base62_ok_positive m _ Hm) as [Hpos Heq].
    apply spec_encode_injective; [lia | lia | congruence].
Qed.

Lemma encode_base62_onto_canonical_witness :
  exists n,
    1 <= n
    /\ base62_decode "aZ9" = Some n
    /\ encode_base62 n = Ok "aZ9"
    /\ forall m, encode_base62 m = Ok "aZ9" -> m = n.
Proof.
  apply (encode_base62_onto_canonical "a"%char "Z9").
  - reflexivity.
  - discriminate.
Defined.

(** ** The repository: what [create] leaves alone *)

Lemma fetch_finds_row (db : Store) (r : Row) :
  bind_text (code r) = Ok tt ->
  In r (urls db) -> codes_unique db ->
  returned (URLRepository.fetch_by_code (code r) db) = Ok (Some (short_of_row r)).
Proof.
  intros Hbind Hin Huniq. rewrite (fetch_bound _ db Hbind). cbn [returned].
  assert (Hp : has_code (code r) r = true) by apply String.eqb_refl.
  destruct (hd_filter_exists _ _ r Hin Hp) as (r' & Hhd).
  rewrite Hhd. apply hd_filter_found in Hhd. destruct Hhd as [Hin' Hcode'].
  apply String.eqb_eq in Hcode'.
  rewrite (Huniq r' r Hin' Hin Hcode'). reflexivity.
Qed.

Lemma filter_other_code (c c' u : string) (i : Z) (rows : list Row) :
  c <> c' ->
  filter (has_code c) (rows ++ [mkRow i u c']) = filter (has_code c) rows.
Proof.
  intros Hneq. rewrite filter_app. cbn [filter].
  unfold has_code at 2. cbn [code].
  destruct (String.eqb c' c) eqn:Heq.
  - apply String.eqb_eq in Heq. congruence.
  - apply app_nil_r.
Qed.

Lemma hd_error_app_some {A : Type} (l1 l2 : list A) (a : A) :
  hd_error l1 = Some a -> hd_error (l1 ++ l2) = Some a.
Proof. destruct l1; [discriminate | auto]. Qed.

(** X5: [create] only appends.  When it returns [s], the table is the old
    table followed by the one row of [s], [sqlite_sequence] is the id of
    [s], every record that a lookup found before is found unchanged
    afterwards, and a lookup by any code other than the new one answers
    as before. *)
Theorem create_appends (u : string) (db : Store) (s : ShortURL.t) :
  returned (URLRepository.create u db) = Ok s ->
  urls (after (URLRepository.create u db))
  = urls db ++ [mkRow (ShortURL.id s) u (ShortURL.code s)]
  /\ sqlite_sequence (after (URLRepository.create u db)) = ShortURL.id s
  /\ (forall c found,
        returned (URLRepository.fetch_by_code c db) = Ok (Some found) ->
        returned (URLRepository.fetch_by_code c (after (URLRepository.create u db)))
        = Ok (Some found))
  /\ (forall c, c <> ShortURL.code s ->
        returned (URLRepository.fetch_by_code c (after (URLRepository.create u db)))
        = returned (URLRepository.fetch_by_code c db)).
Proof.
  intros Hret.
  destruct (create_returns u db s Hret) as (i & c0 & _ & _ & -> & _ & _ & Hcall).
  rewrite Hcall. cbn [after stored urls sqlite_sequence ShortURL.id ShortURL.code].
  split; [reflexivity|]. split; [reflexivity|]. split.
  - intros c found Hfound. rewrite fetch_eq_filter in Hfound |- *.
    destruct (bind_text c) as [[]|e]; [|discriminate].
    cbn [returned stored urls] in *. rewrite filter_app.
    destruct (hd_error (filter (has_code c) (urls db))) as [r|] eqn:Hhd;
      [|discriminate].
    rewrite (hd_error_app_some _ _ r Hhd). exact Hfound.
  - intros c Hneq. rewrite !fetch_eq_filter.
    destruct (bind_text c) as [[]|e]; [|reflexivity].
    cbn [returned stored urls].
    rewrite filter_other_code by assumption. reflexivity.
Qed.

Lemma create_appends_witness :
  urls (after (URLRepository.create "https://b.example"
                 (after (URLRepository.create "https://a.example" Sqlite.empty))))
  = urls (after (URLRepository.create "https://a.example" Sqlite.empty))
    ++ [mkRow 2 "https://b.example" "2"]
  /\ sqlite_sequence (after (URLRepository.create "https://b.example"
                        (after (URLRepository.create "https://a.example" Sqlite.empty))))
     = 2
  /\ (forall c found,
        returned (URLRepository.fetch_by_code c
                    (after (URLRepository.create "https://a.example" Sqlite.empty)))
        = Ok (Some found) ->
        returned (URLRepository.fetch_by_code c
                    (after (URLRepository.create "https://b.example"
                       (after (URLRepository.create "https://a.example" Sqlite.empty)))))
        = Ok (Some found))
  /\ (forall c, c <> "2" ->
        returned (URLRepository.fetch_by_code c
                    (after (URLRepository.create "https://b.example"
                       (after (URLRepository.create "https://a.example" Sqlite.empty)))))
        = returned (URLRepository.fetch_by_code c
                      (after (URLRepository.create "https://a.example" Sqlite.empty)))).
Proof.
  apply (create_appends "https://b.example"
           (after (URLRepository.create "https://a.example" Sqlite.empty))
           (ShortURL.mk 2 "https://b.example" "2")).
  reflexivity.
Defined.

(** ** The repository: the stores the program produces *)

Lemma new_rowid_is_next (db : Store) (i : Z) :
  store_inv db -> new_rowid db = Ok i -> i = sqlite_sequence db + 1.
Proof.
  intros Hinv Hnew. unfold new_rowid in Hnew.
  pose proof (inv_sequence_nonneg db Hinv) as Hseq.
  destruct (max_rowid (urls db)) as [m|] eqn:Hmax.
  - pose proof (max_rowid_below _ _ (inv_sequence db Hinv) m Hmax) as Hm.
    destruct (m =? MAX_ROWID); [discriminate|].
    destruct (sqlite_sequence db =? MAX_ROWID); [discriminate|].
    injection Hnew as <-. lia.
  - destruct (sqlite_sequence db =? MAX_ROWID); [discriminate|].
    injection Hnew as <-. lia.
Qed.

Lemma new_rowid_full (db : Store) :
  sqlite_sequence db = MAX_ROWID ->
  new_rowid db = Raise (OperationalError "database or disk is full").
Proof.
  intros Hfull. unfold new_rowid. rewrite Hfull, Z.eqb_refl.
  destruct (max_rowid (urls db)) as [m|]; [|reflexivity].
  destruct (m =? MAX_ROWID); reflexivity.
Qed.

Lemma first_rowids_succ (n : nat) :
  first_rowids (S n) = first_rowids n ++ [Z.of_nat n + 1].
Proof.
  unfold first_rowids. rewrite seq_S, map_app. cbn [map].
  f_equal. f_equal. lia.
Qed.

(** The rowids of a produced store are 1, 2, ..., n, and [sqlite_sequence]
    is n, which is at most the largest rowid. *)
Lemma reachable_consecutive (db : Store) :
  reachable db ->
  map id (urls db) = first_rowids (List.length (urls db))
  /\ sqlite_sequence db = Z.of_nat (List.length (urls db))
  /\ sqlite_sequence db <= MAX_ROWID.
Proof.
  induction 1 as [|db u Hreach (Hids & Hseq & Hmax)].
  - repeat split. unfold MAX_ROWID. cbn. lia.
  - pose proof (reachable_store_inv db Hreach) as Hinv.
    destruct (returned (URLRepository.create u db)) as [s|e] eqn:Hret.
    + destruct (create_returns u db s Hret) as (i & c & Hnew & _ & _ & _ & _ & Hcall).
      pose proof (new_rowid_is_next db i Hinv Hnew) as Hi.
      assert (Hroom : sqlite_sequence db <> MAX_ROWID).
      { intros Hfull. rewrite (new_rowid_full db Hfull) in Hnew. discriminate. }
      rewrite Hcall. cbn [after stored urls sqlite_sequence].
      rewrite map_app, length_app. cbn [map List.length id].
      rewrite Nat.add_1_r, first_rowids_succ, Hids.
      repeat split; [f_equal; f_equal; lia | lia | lia].
    + destruct (create_raises u db e Hret) as [-> _]. auto.
Qed.

Lemma issued_codes_distinct (rows : list Row) :
  Forall issued rows -> NoDup (map id rows) -> NoDup (map code rows).
Proof.
  induction 1 as [|r rows [Hpos Henc] Hall IH]; intros Hkey.
  - constructor.
  - cbn [map] in *. inversion Hkey as [|x xs Hnotin Hrest]; subst.
    constructor; [|apply IH; assumption].
    intros Hin. apply in_map_iff in Hin. destruct Hin as (r' & Hcode & Hin').
    pose proof (proj1 (Forall_forall _ _) Hall r' Hin') as [Hpos' Henc'].
    rewrite encode_base62_spec in Henc, Henc' by assumption.
    assert (id r' = id r)
      by (apply spec_encode_injective; [lia | lia | congruence]).
    apply Hnotin. apply in_map_iff. exists r'. auto.
Qed.

Lemma first_rowids_in (n : nat) (k : Z) :
  In k (first_rowids n) <-> 1 <= k <= Z.of_nat n.
Proof.
  unfold first_rowids. rewrite in_map_iff. split.
  - intros (j & <- & Hj). apply in_seq in Hj. lia.
  - intros Hk. exists (Z.to_nat k). split; [lia|]. apply in_seq. lia.
Qed.

(** X6: in every store the program produces (a new database, then any
    calls of [create], failed ones included) the rowids are exactly
    1, 2, ..., n in insertion order, [sqlite_sequence] is n, every row
    carries the code of its rowid, and the codes are non-empty and
    pairwise distinct. *)
Theorem reachable_store_shape (db : Store) :
  reachable db ->
  map id (urls db) = first_rowids (List.length (urls db))
  /\ sqlite_sequence db = Z.of_nat (List.length (urls db))
  /\ Forall (fun r => encode_base62 (id r) = Ok (code r) /\ code r <> "") (urls db)
  /\ NoDup (map code (urls db)).
Proof.
  intros Hreach.
  destruct (reachable_consecutive db Hreach) as (Hids & Hseq & _).
  pose proof (reachable_store_inv db Hreach) as Hinv.
  split; [assumption|]. split; [assumption|]. split.
  - eapply Forall_impl; [|apply (inv_issued db Hinv)].
    intros r [_ Henc]. split; [assumption|].
    apply (encode_base62_not_blank (id r)). assumption.
  - apply issued_codes_distinct;
      [apply (inv_issued db Hinv) | apply (inv_primary_key db Hinv)].
Qed.

Lemma reachable_store_shape_witness :
  let db := after (URLRepository.create "https://b.example"
              (after (URLRepository.create "https://a.example" Sqlite.empty))) in
  map id (urls db) = first_rowids (List.length (urls db))
  /\ sqlite_sequence db = Z.of_nat (List.length (urls db))
  /\ Forall (fun r => encode_base62 (id r) = Ok (code r) /\ code r <> "") (urls db)
  /\ NoDup (map code (urls db)).
Proof.
  intros db. apply (reachable_store_shape db).
  apply reachable_create, reachable_create, reachable_empty.
Defined.

(** X7: in every store the program produces, each id issued so far (each
    k with 1 <= k <= sqlite_sequence) is found again by its code:
    [fetch_by_code (encode_base62 k)] returns the record of id k. *)
Theorem issued_ids_are_found (db : Store) (k : Z) :
  reachable db ->
  1 <= k <= sqlite_sequence db ->
  exists c found,
    encode_base62 k = Ok c
    /\ returned (URLRepository.fetch_by_code c db) = Ok (Some found)
    /\ ShortURL.id found = k
    /\ ShortURL.code found = c.
Proof.
  intros Hreach Hk.
  destruct (reachable_consecutive db Hreach) as (Hids & Hseq & Hmax).
  pose proof (reachable_store_inv db Hreach) as Hinv.
  assert (Hin : In k (map id (urls db)))
    by (rewrite Hids; apply first_rowids_in; lia).
  apply in_map_iff in Hin. destruct Hin as (r & Hid & Hin).
  pose proof (proj1 (Forall_forall _ _) (inv_issued db Hinv) r Hin) as [_ Henc].
  assert (Hbind : bind_text (code r) = Ok tt).
  { destruct (encode_base62_ok_positive _ _ Henc) as [_ ->].
    apply code_binds. lia. }
  exists (code r), (short_of_row r). rewrite <- Hid.
  split; [assumption|]. split; [|split; reflexivity].
  apply fetch_finds_row;
    [assumption | assumption | apply store_inv_codes_unique; assumption].
Qed.

Lemma issued_ids_are_found_witness :
  exists c found,
    encode_base62 1 = Ok c
    /\ returned (URLRepository.fetch_by_code c
                   (after (URLRepository.create "https://b.example"
                      (after (URLRepository.create "https://a.example" Sqlite.empty)))))
       = Ok (Some found)
    /\ ShortURL.id found = 1
    /\ ShortURL.code found = c.
Proof.
  apply (issued_ids_are_found
           (after (URLRepository.create "https://b.example"
              (after (URLRepository.create "https://a.example" Sqlite.empty)))) 1).
  - apply reachable_create, reachable_create, reachable_empty.
  - split; [lia | vm_compute; discriminate].
Defined.



(** ** The handlers *)











(** A URL with a line feed is shortened, and its code does not redirect. *)
Example redirect_newline_raises :
  let u := String "a" (String "010" (String "b" EmptyString)) in
  let shortened :=
    App.shorten (App.mkAppConfig "http://localhost:5000" "urls.db")
      (App.JsonBody (App.JDict [("url", App.JStr u)])) Sqlite.empty in
  returned shortened
  = Ok (App.Json 201 (App.JDict
          [("code", App.JStr "1");
           ("short_url", App.JStr "http://localhost:5000/1");
           ("url", App.JStr u)]))
  /\ returned (App.redirect_to_url "1" (after shortened))
     = Raise (ValueError "Header values must not contain newline characters.").
Proof. split; reflexivity. Qed.






(** ** Configuration and start-up *)

Lemma append_slash_not_empty (t : string) : (t ++ "/")%string <> "".
Proof. destruct t; discriminate. Qed.

Lemma rstrip_split (s : string) :
  exists k, s = (rstrip s "/" ++ slashes k)%string.
Proof.
  induction s as [|c s [k IH]].
  - exists O. reflexivity.
  - cbn [rstrip]. destruct (rstrip s "/") as [|a kept] eqn:Hkept.
    + cbn [append] in IH. cbn [char_in].
      destruct (Ascii.eqb "/" c) eqn:Hc; cbn [orb].
      * apply Ascii.eqb_eq in Hc. subst c. exists (S k).
        cbn [append slashes]. rewrite <- IH. reflexivity.
      * exists k. cbn [append]. rewrite <- IH. reflexivity.
    + exists k. cbn [append] in *. rewrite <- IH. reflexivity.
Qed.

Lemma rstrip_no_trailing_slash (s : string) :
  forall t, rstrip s "/" <> (t ++ "/")%string.
Proof.
  induction s as [|c s IH]; intros t.
  - cbn [rstrip]. intros Heq. symmetry in Heq.
    exact (append_slash_not_empty t Heq).
  - cbn [rstrip]. destruct (rstrip s "/") as [|a kept] eqn:Hkept.
    + cbn [char_in]. destruct (Ascii.eqb "/" c) eqn:Hc; cbn [orb].
      * intros Heq. symmetry in Heq. exact (append_slash_not_empty t Heq).
      * destruct t as [|b t]; cbn [append]; intros Heq.
        -- injection Heq as ->. rewrite Ascii.eqb_refl in Hc. discriminate.
        -- injection Heq as _ Heq. symmetry in Heq.
           exact (append_slash_not_empty t Heq).
    + destruct t as [|b t]; cbn [append]; intros Heq.
      * discriminate.
      * injection Heq as _ Heq. exact (IH t Heq).
Qed.

(** X14: [AppConfig.from_env] takes BASE_URL and DATABASE_URL from the
    environment, with the defaults http://localhost:5000 and urls.db for a
    variable that is not set; database_url is taken verbatim; base_url is
    the value without its trailing slashes, all of them and nothing else,
    so it never ends with a slash. *)
Theorem from_env_config (env : Env.t) :
  (exists k,
     Env.getenv env "BASE_URL" "http://localhost:5000"
     = (App.base_url (AppConfig.from_env env) ++ slashes k)%string)
  /\ (forall t, App.base_url (AppConfig.from_env env) <> (t ++ "/")%string)
  /\ App.database_url (AppConfig.from_env env)
     = Env.getenv env "DATABASE_URL" "urls.db"
  /\ (env "BASE_URL" = None ->
      App.base_url (AppConfig.from_env env) = "http://localhost:5000")
  /\ (env "DATABASE_URL" = None ->
      App.database_url (AppConfig.from_env env) = "urls.db")
  /\ (forall v, env "BASE_URL" = Some v ->
      App.base_url (AppConfig.from_env env) = rstrip v "/")
  /\ (forall v, env "DATABASE_URL" = Some v ->
      App.database_url (AppConfig.from_env env) = v).
Proof.
  unfold AppConfig.from_env. cbn [App.base_url App.database_url].
  split; [apply rstrip_split|]. split; [apply rstrip_no_trailing_slash|].
  split; [reflexivity|]. unfold Env.getenv.
  split; [intros ->; reflexivity|]. split; [intros ->; reflexivity|].
  split; intros v ->; reflexivity.
Qed.

Example from_env_example :
  AppConfig.from_env
    (fun key => if String.eqb key "BASE_URL" then Some "https://sho.rt//" else None)
  = App.mkAppConfig "https://sho.rt" "urls.db".
Proof. reflexivity. Qed.

(** ** The repository on a store it did not write *)


